(** * ArrowGameSecure: a shallow embedding of the wagering contract

    Source: [packages/hardhat/contracts/ArrowGameSecure.sol].

    The contract is modelled at the level of transactions.  A call takes the
    storage of the contract (together with its native balance) and either
    returns the new storage and the events it emitted, or reverts with an
    error, in which case the storage, the balance and the caller's funds are
    what they were before the call.

    - [uint256], [bytes32] and [address] values are numbers of type [N];
      Solidity 0.8 checked arithmetic is written out ([add256], [sub256],
      [mul256] revert with [ArithmeticPanic] outside the word range).
    - [mapping(address => T)] is a [gmap] read with the zero value as default.
    - [keccak256(abi.encodePacked(...))] is a parameter of the development:
      nothing below depends on what the hash function computes.
    - The low-level [call{value: v}("")] to the player or to the owner is a
      transfer whose acceptance is supplied by the environment
      ([call_succeeds]); it also fails when the contract holds less than [v].
      The code of the recipient is not modelled.
    - [nonReentrant] guards are released when a call returns, so a
      transaction entering from outside always passes them; the inherited
      [Ownable] and [Pausable] modifiers follow OpenZeppelin 5
      ([OwnableUnauthorizedAccount], [EnforcedPause], [ExpectedPause]).
    - The balance of an account is not subject to checked arithmetic: the
      chain never holds more than a word's worth of currency. *)

From Stdlib Require Import NArith Lia String List.
From stdpp Require Import base option numbers gmap strings.
Import ListNotations.

Local Open Scope string_scope.
Local Open Scope N_scope.

(** ** Words and checked arithmetic *)

Abbreviation address := N (only parsing).
Abbreviation bytes32 := N (only parsing).
Abbreviation uint256 := N (only parsing).

Definition MAX_UINT256 : N := 2 ^ 256 - 1.

Inductive Error : Type :=
  | BetTooSmall (sent minimum : uint256)
  | BetTooLarge (sent maximum : uint256)
  | InsufficientHouseBalance (available required : uint256)
  | PendingBetExists
  | NoPendingBet
  | RevealTooEarly (currentBlock requiredBlock : uint256)
  | RevealTooLate (currentBlock deadline : uint256)
  | InvalidReveal
  | RequireFailed (reason : string)
  | ArithmeticPanic
  | EnforcedPause
  | ExpectedPause
  | OwnableUnauthorizedAccount (account : address)
  | OwnableInvalidOwner (account : address).

Inductive Result (A : Type) : Type :=
  | Ok (a : A)
  | Revert (e : Error).
Arguments Ok {A} a.
Arguments Revert {A} e.

#[global] Instance Result_ret : MRet Result := fun _ a => Ok a.
#[global] Instance Result_bind : MBind Result := fun _ _ f r =>
  match r with
  | Ok a => f a
  | Revert e => Revert e
  end.

Definition add256 (a b : uint256) : Result uint256 :=
  if a + b <=? MAX_UINT256 then Ok (a + b) else Revert ArithmeticPanic.

Definition sub256 (a b : uint256) : Result uint256 :=
  if b <=? a then Ok (a - b) else Revert ArithmeticPanic.

Definition mul256 (a b : uint256) : Result uint256 :=
  if a * b <=? MAX_UINT256 then Ok (a * b) else Revert ArithmeticPanic.

(** [abi.encodePacked] of statically sized values: the sequence of the
    values with their widths. *)
Inductive abi_word : Type :=
  | W256 (w : uint256)
  | W160 (a : address).

(** ** Storage *)

Record PendingBet : Type := mkPendingBet {
  amount : uint256;
  commitBlock : uint256;
  commitHash : bytes32;
  resolved : bool
}.

Definition noBet : PendingBet := mkPendingBet 0 0 0 false.

Record State : Type := mkState {
  balance : uint256;
  owner : address;
  paused : bool;
  minBet : uint256;
  maxBet : uint256;
  reserveBalance : uint256;
  totalGamesPlayed : uint256;
  totalPayouts : uint256;
  totalWagered : uint256;
  playerGamesPlayed : gmap N N;
  playerTotalWon : gmap N N;
  playerTotalWagered : gmap N N;
  pendingBets : gmap N PendingBet
}.

Definition HOUSE_EDGE : uint256 := 5.
Definition MAX_PAYOUT_MULTIPLIER : uint256 := 190.
Definition REVEAL_TIMEOUT : uint256 := 256.
Definition MIN_REVEAL_DELAY : uint256 := 1.

(** Reading a mapping: an absent key holds the zero value. *)
Definition counter (m : gmap N N) (a : address) : uint256 := default 0 (m !! a).
Definition pendingBet (s : State) (a : address) : PendingBet :=
  default noBet (pendingBets s !! a).

Definition set_balance (v : uint256) (s : State) : State :=
  mkState v (owner s) (paused s) (minBet s) (maxBet s) (reserveBalance s)
    (totalGamesPlayed s) (totalPayouts s) (totalWagered s)
    (playerGamesPlayed s) (playerTotalWon s) (playerTotalWagered s) (pendingBets s).

Definition set_owner (v : address) (s : State) : State :=
  mkState (balance s) v (paused s) (minBet s) (maxBet s) (reserveBalance s)
    (totalGamesPlayed s) (totalPayouts s) (totalWagered s)
    (playerGamesPlayed s) (playerTotalWon s) (playerTotalWagered s) (pendingBets s).

Definition set_paused (v : bool) (s : State) : State :=
  mkState (balance s) (owner s) v (minBet s) (maxBet s) (reserveBalance s)
    (totalGamesPlayed s) (totalPayouts s) (totalWagered s)
    (playerGamesPlayed s) (playerTotalWon s) (playerTotalWagered s) (pendingBets s).

Definition set_betLimits (lo hi : uint256) (s : State) : State :=
  mkState (balance s) (owner s) (paused s) lo hi (reserveBalance s)
    (totalGamesPlayed s) (totalPayouts s) (totalWagered s)
    (playerGamesPlayed s) (playerTotalWon s) (playerTotalWagered s) (pendingBets s).

Definition set_reserveBalance (v : uint256) (s : State) : State :=
  mkState (balance s) (owner s) (paused s) (minBet s) (maxBet s) v
    (totalGamesPlayed s) (totalPayouts s) (totalWagered s)
    (playerGamesPlayed s) (playerTotalWon s) (playerTotalWagered s) (pendingBets s).

Definition set_totalGamesPlayed (v : uint256) (s : State) : State :=
  mkState (balance s) (owner s) (paused s) (minBet s) (maxBet s) (reserveBalance s)
    v (totalPayouts s) (totalWagered s)
    (playerGamesPlayed s) (playerTotalWon s) (playerTotalWagered s) (pendingBets s).

Definition set_totalPayouts (v : uint256) (s : State) : State :=
  mkState (balance s) (owner s) (paused s) (minBet s) (maxBet s) (reserveBalance s)
    (totalGamesPlayed s) v (totalWagered s)
    (playerGamesPlayed s) (playerTotalWon s) (playerTotalWagered s) (pendingBets s).

Definition set_totalWagered (v : uint256) (s : State) : State :=
  mkState (balance s) (owner s) (paused s) (minBet s) (maxBet s) (reserveBalance s)
    (totalGamesPlayed s) (totalPayouts s) v
    (playerGamesPlayed s) (playerTotalWon s) (playerTotalWagered s) (pendingBets s).

Definition set_playerGamesPlayed (a : address) (v : uint256) (s : State) : State :=
  mkState (balance s) (owner s) (paused s) (minBet s) (maxBet s) (reserveBalance s)
    (totalGamesPlayed s) (totalPayouts s) (totalWagered s)
    (<[a:=v]> (playerGamesPlayed s)) (playerTotalWon s) (playerTotalWagered s)
    (pendingBets s).

Definition set_playerTotalWon (a : address) (v : uint256) (s : State) : State :=
  mkState (balance s) (owner s) (paused s) (minBet s) (maxBet s) (reserveBalance s)
    (totalGamesPlayed s) (totalPayouts s) (totalWagered s)
    (playerGamesPlayed s) (<[a:=v]> (playerTotalWon s)) (playerTotalWagered s)
    (pendingBets s).

Definition set_playerTotalWagered (a : address) (v : uint256) (s : State) : State :=
  mkState (balance s) (owner s) (paused s) (minBet s) (maxBet s) (reserveBalance s)
    (totalGamesPlayed s) (totalPayouts s) (totalWagered s)
    (playerGamesPlayed s) (playerTotalWon s) (<[a:=v]> (playerTotalWagered s))
    (pendingBets s).

Definition set_pendingBet (a : address) (b : PendingBet) (s : State) : State :=
  mkState (balance s) (owner s) (paused s) (minBet s) (maxBet s) (reserveBalance s)
    (totalGamesPlayed s) (totalPayouts s) (totalWagered s)
    (playerGamesPlayed s) (playerTotalWon s) (playerTotalWagered s)
    (<[a:=b]> (pendingBets s)).

(** ** Events *)

Inductive Event : Type :=
  | BetCommitted (player : address) (amount : uint256) (commitHash : bytes32)
  | BetRevealed (player : address) (amount : uint256) (result : N) (payout : uint256)
  | BetRefunded (player : address) (amount : uint256) (reason : string)
  | GameFunded (funder : address) (amount : uint256)
  | HouseWithdraw (owner : address) (amount : uint256) (remainingReserve : uint256)
  | ConfigUpdated (minBet maxBet : uint256)
  | ReserveUpdated (newReserve : uint256)
  | EmergencyWithdraw (owner : address) (amount : uint256)
  | Paused (account : address)
  | Unpaused (account : address)
  | OwnershipTransferred (previousOwner newOwner : address).

(** ** The environment of a call *)

Record Call : Type := mkCall {
  msg_sender : address;
  block_number : uint256;
  block_timestamp : uint256;
  block_prevrandao : uint256;
  blockhash : uint256 -> bytes32;
  call_succeeds : bool
}.

Abbreviation Outcome := (Result (State * list Event)) (only parsing).

(** [msg.value] is added to the balance of the contract before the body of a
    payable function runs. *)
Definition credit (value : uint256) (s : State) : State :=
  set_balance (balance s + value) s.

(** [payable(to).call{value: v}("")], with the [require(success, reason)]
    that follows it in every use. *)
Definition send (c : Call) (v : uint256) (reason : string) (s : State) : Result State :=
  if call_succeeds c && (v <=? balance s)
  then Ok (set_balance (balance s - v) s)
  else Revert (RequireFailed reason).

Definition require (cond : bool) (reason : string) : Result unit :=
  if cond then Ok tt else Revert (RequireFailed reason).

Definition whenNotPaused (s : State) : Result unit :=
  if paused s then Revert EnforcedPause else Ok tt.

Definition whenPaused (s : State) : Result unit :=
  if paused s then Ok tt else Revert ExpectedPause.

Definition onlyOwner (c : Call) (s : State) : Result unit :=
  if owner s =? msg_sender c then Ok tt
  else Revert (OwnableUnauthorizedAccount (msg_sender c)).

(** ** Transactions *)

(** The state-changing entry points.  Only the payable ones carry a value. *)
Module Op.

Inductive t : Type :=
  | CommitBet (value : uint256) (commitHash : bytes32)
  | RevealBet (secret : bytes32)
  | RefundExpiredBet
  | QuickBet (value : uint256)
  | FundHouse (value : uint256)
  | WithdrawHouse (amount : uint256)
  | Pause
  | Unpause
  | EmergencyWithdraw
  | UpdateBetLimits (_minBet _maxBet : uint256)
  | Receive (value : uint256)
  | TransferOwnership (newOwner : address)
  | RenounceOwnership.

End Op.

(** ** The contract *)

Section Engine.

(** [keccak256(abi.encodePacked(...))]. *)
Variable keccak256 : list abi_word -> bytes32.

(** The constructor: [Ownable(msg.sender)], [reserveBalance = 0], and the
    initialisers of [minBet] and [maxBet].  [funds] is what the address held
    before the contract was created. *)
Definition deploy (deployer : address) (funds : uint256) : State :=
  {| balance := funds;
     owner := deployer;
     paused := false;
     minBet := 500000000000000;
     maxBet := 5000000000000000;
     reserveBalance := 0;
     totalGamesPlayed := 0;
     totalPayouts := 0;
     totalWagered := 0;
     playerGamesPlayed := ∅;
     playerTotalWon := ∅;
     playerTotalWagered := ∅;
     pendingBets := ∅ |}.

(** *** Commit phase *)

Definition commitBet (c : Call) (value : uint256) (commitHash : bytes32) (s0 : State)
    : Outcome :=
  let s := credit value s0 in
  _ ← whenNotPaused s;
  let sender := msg_sender c in
  if value <? minBet s then Revert (BetTooSmall value (minBet s)) else
  if maxBet s <? value then Revert (BetTooLarge value (maxBet s)) else
  if (0 <? amount (pendingBet s sender)) && negb (resolved (pendingBet s sender))
  then Revert PendingBetExists else
  product ← mul256 value MAX_PAYOUT_MULTIPLIER;
  let maxPayout := product / 100 in
  availableForPayout ← sub256 (balance s) value;
  if availableForPayout <? maxPayout
  then Revert (InsufficientHouseBalance availableForPayout maxPayout) else
  let s := set_pendingBet sender
             {| amount := value;
                commitBlock := block_number c;
                commitHash := commitHash;
                resolved := false |} s in
  reserve ← add256 (reserveBalance s) maxPayout;
  let s := set_reserveBalance reserve s in
  Ok (s, [BetCommitted sender value commitHash]).

(** *** Reveal phase *)

(** Lines 168-183: the outcome of a revealed bet. *)
Definition reveal_outcome (random betAmount : uint256) : Result (N * uint256) :=
  if random <? 15 then
    product ← mul256 betAmount MAX_PAYOUT_MULTIPLIER;
    Ok (2, product / 100)
  else if random <? 50 then
    Ok (1, betAmount / 2)
  else
    Ok (0, 0).

Definition revealBet (c : Call) (secret : bytes32) (s : State) : Outcome :=
  _ ← whenNotPaused s;
  let sender := msg_sender c in
  let bet := pendingBet s sender in
  if (amount bet =? 0) || resolved bet then Revert NoPendingBet else
  earliest ← add256 (commitBlock bet) MIN_REVEAL_DELAY;
  if block_number c <=? earliest then
    required ← add256 earliest 1;
    Revert (RevealTooEarly (block_number c) required)
  else
  deadline ← add256 (commitBlock bet) REVEAL_TIMEOUT;
  if deadline <? block_number c
  then Revert (RevealTooLate (block_number c) deadline) else
  let expectedHash := keccak256 [W256 secret; W160 sender] in
  if negb (expectedHash =? commitHash bet) then Revert InvalidReveal else
  let s := set_pendingBet sender
             {| amount := amount bet;
                commitBlock := commitBlock bet;
                commitHash := commitHash bet;
                resolved := true |} s in
  let betAmount := amount bet in
  product ← mul256 betAmount MAX_PAYOUT_MULTIPLIER;
  let maxPayout := product / 100 in
  reserve ← sub256 (reserveBalance s) maxPayout;
  let s := set_reserveBalance reserve s in
  next ← add256 (commitBlock bet) 1;
  let blockHash := blockhash c next in
  let random :=
    keccak256 [W256 secret; W256 blockHash; W160 sender; W256 (commitBlock bet)]
      mod 100 in
  '(result, payout) ← reveal_outcome random betAmount;
  games ← add256 (totalGamesPlayed s) 1;
  let s := set_totalGamesPlayed games s in
  wagered ← add256 (totalWagered s) betAmount;
  let s := set_totalWagered wagered s in
  played ← add256 (counter (playerGamesPlayed s) sender) 1;
  let s := set_playerGamesPlayed sender played s in
  staked ← add256 (counter (playerTotalWagered s) sender) betAmount;
  let s := set_playerTotalWagered sender staked s in
  s ← (if 0 <? payout then
         paid ← add256 (totalPayouts s) payout;
         let s := set_totalPayouts paid s in
         won ← add256 (counter (playerTotalWon s) sender) payout;
         let s := set_playerTotalWon sender won s in
         send c payout "Payout failed" s
       else Ok s);
  Ok (s, [BetRevealed sender betAmount result payout]).

(** *** Refund after the reveal window *)

Definition refundExpiredBet (c : Call) (s : State) : Outcome :=
  let sender := msg_sender c in
  let bet := pendingBet s sender in
  if (amount bet =? 0) || resolved bet then Revert NoPendingBet else
  deadline ← add256 (commitBlock bet) REVEAL_TIMEOUT;
  if block_number c <=? deadline then
    required ← add256 deadline 1;
    Revert (RevealTooEarly (block_number c) required)
  else
  let s := set_pendingBet sender
             {| amount := amount bet;
                commitBlock := commitBlock bet;
                commitHash := commitHash bet;
                resolved := true |} s in
  let refundAmount := amount bet in
  product ← mul256 refundAmount MAX_PAYOUT_MULTIPLIER;
  let maxPayout := product / 100 in
  reserve ← sub256 (reserveBalance s) maxPayout;
  let s := set_reserveBalance reserve s in
  s ← send c refundAmount "Refund failed" s;
  Ok (s, [BetRefunded sender refundAmount "Reveal timeout"]).

(** *** Single-transaction bet *)

(** Lines 263-275: the outcome of a quick bet. *)
Definition quick_outcome (random value : uint256) : Result (N * uint256) :=
  if random <? 15 then
    product ← mul256 value MAX_PAYOUT_MULTIPLIER;
    Ok (2, product / 100)
  else if random <? 50 then
    Ok (1, value / 2)
  else
    Ok (0, 0).

Definition quickBet (c : Call) (value : uint256) (s0 : State) : Outcome :=
  let s := credit value s0 in
  _ ← whenNotPaused s;
  let sender := msg_sender c in
  if value <? minBet s then Revert (BetTooSmall value (minBet s)) else
  if maxBet s <? value then Revert (BetTooLarge value (maxBet s)) else
  product ← mul256 value MAX_PAYOUT_MULTIPLIER;
  let maxPayout := product / 100 in
  availableForPayout ← sub256 (balance s) value;
  if availableForPayout <? maxPayout then
    s ← send c value "Refund failed" s;
    Ok (s, [BetRefunded sender value "Insufficient house balance"])
  else
  previous ← sub256 (block_number c) 1;
  let random :=
    keccak256 [W256 (block_prevrandao c); W256 (block_timestamp c); W160 sender;
               W256 (totalGamesPlayed s); W256 (blockhash c previous)]
      mod 100 in
  '(result, payout) ← quick_outcome random value;
  games ← add256 (totalGamesPlayed s) 1;
  let s := set_totalGamesPlayed games s in
  wagered ← add256 (totalWagered s) value;
  let s := set_totalWagered wagered s in
  played ← add256 (counter (playerGamesPlayed s) sender) 1;
  let s := set_playerGamesPlayed sender played s in
  staked ← add256 (counter (playerTotalWagered s) sender) value;
  let s := set_playerTotalWagered sender staked s in
  s ← (if 0 <? payout then
         paid ← add256 (totalPayouts s) payout;
         let s := set_totalPayouts paid s in
         won ← add256 (counter (playerTotalWon s) sender) payout;
         let s := set_playerTotalWon sender won s in
         send c payout "Payout failed" s
       else Ok s);
  Ok (s, [BetRevealed sender value result payout]).

(** *** House management *)

Definition fundHouse (c : Call) (value : uint256) (s0 : State) : Outcome :=
  let s := credit value s0 in
  _ ← require (0 <? value) "Must send CELO";
  Ok (s, [GameFunded (msg_sender c) value]).

Definition withdrawHouse (c : Call) (amount : uint256) (s : State) : Outcome :=
  _ ← onlyOwner c s;
  available ← sub256 (balance s) (reserveBalance s);
  _ ← require (amount <=? available) "Cannot withdraw reserved funds";
  s ← send c amount "Withdrawal failed" s;
  Ok (s, [HouseWithdraw (msg_sender c) amount (reserveBalance s)]).

Definition pause (c : Call) (s : State) : Outcome :=
  _ ← onlyOwner c s;
  _ ← whenNotPaused s;
  Ok (set_paused true s, [Paused (msg_sender c)]).

Definition unpause (c : Call) (s : State) : Outcome :=
  _ ← onlyOwner c s;
  _ ← whenPaused s;
  Ok (set_paused false s, [Unpaused (msg_sender c)]).

Definition emergencyWithdraw (c : Call) (s : State) : Outcome :=
  _ ← onlyOwner c s;
  _ ← whenPaused s;
  let funds := balance s in
  s ← send c funds "Emergency withdrawal failed" s;
  Ok (s, [EmergencyWithdraw (msg_sender c) funds]).

Definition updateBetLimits (c : Call) (_minBet _maxBet : uint256) (s : State) : Outcome :=
  _ ← onlyOwner c s;
  _ ← require (0 <? _minBet) "Min bet must be positive";
  _ ← require (_minBet <? _maxBet) "Invalid bet range";
  _ ← require (_maxBet <=? 10000000000000000) "Max bet too high";
  Ok (set_betLimits _minBet _maxBet s, [ConfigUpdated _minBet _maxBet]).

Definition receive (c : Call) (value : uint256) (s0 : State) : Outcome :=
  let s := credit value s0 in
  Ok (s, [GameFunded (msg_sender c) value]).

(** Inherited from [Ownable]. *)
Definition transferOwnership (c : Call) (newOwner : address) (s : State) : Outcome :=
  _ ← onlyOwner c s;
  if newOwner =? 0 then Revert (OwnableInvalidOwner 0) else
  Ok (set_owner newOwner s, [OwnershipTransferred (owner s) newOwner]).

Definition renounceOwnership (c : Call) (s : State) : Outcome :=
  _ ← onlyOwner c s;
  Ok (set_owner 0 s, [OwnershipTransferred (owner s) 0]).

(** ** Running transactions *)

Definition call (c : Call) (op : Op.t) (s : State) : Outcome :=
  match op with
  | Op.CommitBet value commitHash => commitBet c value commitHash s
  | Op.RevealBet secret => revealBet c secret s
  | Op.RefundExpiredBet => refundExpiredBet c s
  | Op.QuickBet value => quickBet c value s
  | Op.FundHouse value => fundHouse c value s
  | Op.WithdrawHouse amount => withdrawHouse c amount s
  | Op.Pause => pause c s
  | Op.Unpause => unpause c s
  | Op.EmergencyWithdraw => emergencyWithdraw c s
  | Op.UpdateBetLimits lo hi => updateBetLimits c lo hi s
  | Op.Receive value => receive c value s
  | Op.TransferOwnership newOwner => transferOwnership c newOwner s
  | Op.RenounceOwnership => renounceOwnership c s
  end.

(** A reverted call leaves the state as it was. *)
Definition settle (s : State) (r : Outcome) : State :=
  match r with
  | Ok (s', _) => s'
  | Revert _ => s
  end.

Definition exec (c : Call) (op : Op.t) (s : State) : State :=
  settle s (call c op s).

Fixpoint run (trace : list (Call * Op.t)) (s : State) : State :=
  match trace with
  | [] => s
  | (c, op) :: rest => run rest (exec c op s)
  end.

Inductive reachable : State -> Prop :=
  | reachable_deploy deployer funds : reachable (deploy deployer funds)
  | reachable_exec c op s : reachable s -> reachable (exec c op s).

End Engine.

(** ** Vocabulary of the specification *)

(** A ledger slot holds an open bet: [amount > 0 && !resolved]. *)
Definition committed (b : PendingBet) : bool :=
  (0 <? amount b) && negb (resolved b).

(** The worst-case payout of a stake, [stake * 190 / 100]. *)
Definition worst_case_payout (stake : uint256) : uint256 :=
  stake * MAX_PAYOUT_MULTIPLIER / 100.

(** What a ledger slot adds to the liability: the worst-case payout of its
    stake while the bet is open, nothing otherwise. *)
Definition slot_liability (b : PendingBet) : uint256 :=
  if committed b then worst_case_payout (amount b) else 0.

(** The sum of the worst-case payouts of the open bets of a ledger. *)
Definition open_liability (ledger : gmap N PendingBet) : uint256 :=
  map_fold (fun _ b acc => slot_liability b + acc) 0 ledger.

(** [bet.resolved = true]. *)
Definition mark_resolved (b : PendingBet) : PendingBet :=
  {| amount := amount b;
     commitBlock := commitBlock b;
     commitHash := commitHash b;
     resolved := true |}.

(** A step of a trace is a [commitBet] sent by [a]. *)
Definition commits_for (a : address) (step : Call * Op.t) : bool :=
  match step with
  | (c, Op.CommitBet _ _) => msg_sender c =? a
  | _ => false
  end.

(** The result tiers of the Outcome Resolver, and the numbers the contract
    reports them as. *)
Inductive Tier : Type := Miss | Ring | Bullseye.

Definition tier_code (t : Tier) : N :=
  match t with
  | Miss => 0
  | Ring => 1
  | Bullseye => 2
  end.

(** The Outcome Resolver as the specification words it: thresholds 15 and
    50, payouts [stake * 190 / 100], [stake / 2] and [0]. *)
Definition resolver_spec (r stake : uint256) : Tier * uint256 :=
  if r <? 15 then (Bullseye, stake * 190 / 100)
  else if r <? 50 then (Ring, stake / 2)
  else (Miss, 0).

(** The random value of the reveal path and of the quick path. *)
Definition reveal_random (keccak256 : list abi_word -> bytes32)
    (secret entropy : bytes32) (caller : address) (commitHeight : uint256) : uint256 :=
  keccak256 [W256 secret; W256 entropy; W160 caller; W256 commitHeight] mod 100.

Definition quick_random (keccak256 : list abi_word -> bytes32)
    (c : Call) (gamesPlayed : uint256) : uint256 :=
  keccak256 [W256 (block_prevrandao c); W256 (block_timestamp c); W160 (msg_sender c);
             W256 gamesPlayed; W256 (blockhash c (block_number c - 1))]
    mod 100.

(** ** Concrete scenarios *)

(** A stand-in hash function for running the contract on concrete inputs. *)
Definition sample_keccak (ws : list abi_word) : bytes32 :=
  fold_right (fun w acc =>
                match w with
                | W256 v => v
                | W160 a => a
                end + 31 * acc) 7 ws.

Definition house : address := 1.
Definition alice : address := 101.
Definition bob : address := 102.
Definition carol : address := 103.

(** A call by [sender] at block [height] whose transfers are accepted. *)
Definition call_at (height : uint256) (sender : address) : Call :=
  {| msg_sender := sender;
     block_number := height;
     block_timestamp := 1700000000 + 5 * height;
     block_prevrandao := 0;
     blockhash := fun n => 1000 + n;
     call_succeeds := true |}.

Definition finney : uint256 := 1000000000000000.

(** The house funded with the worst-case payout of a single one-finney bet. *)
Definition funded : State :=
  run sample_keccak [(call_at 1 house, Op.FundHouse (worst_case_payout finney))]
    (deploy house 0).

(** Three players commit one finney each against that single cover; each
    digest is the sample digest of the secret 7 and the player's address. *)
Definition overcommit_trace : list (Call * Op.t) :=
  [ (call_at 10 alice, Op.CommitBet finney 9865);
    (call_at 10 bob, Op.CommitBet finney 9896);
    (call_at 10 carol, Op.CommitBet finney 9927) ].

(** Alice alone has committed one finney at block 10; 9865 is the sample
    digest of her secret 7 and her address. *)
Definition alice_committed : State :=
  exec sample_keccak (call_at 10 alice) (Op.CommitBet finney 9865) funded.

(** The same, with the engine paused afterwards. *)
Definition alice_committed_paused : State :=
  exec sample_keccak (call_at 11 house) Op.Pause alice_committed.

(** Alice has revealed at block 12. *)
Definition alice_revealed : State :=
  exec sample_keccak (call_at 12 alice) (Op.RevealBet 7) alice_committed.

(** Only the commit, reveal and refund entry points write [reserveBalance]. *)
Definition touches_reserve (op : Op.t) : bool :=
  match op with
  | Op.CommitBet _ _ | Op.RevealBet _ | Op.RefundExpiredBet => true
  | _ => false
  end.

(** The entry points after which the balance may fall short of the reserve:
    the two that accept a bet, and the emergency exit. *)
Definition may_uncover_reserve (op : Op.t) : bool :=
  match op with
  | Op.CommitBet _ _ | Op.QuickBet _ | Op.EmergencyWithdraw => true
  | _ => false
  end.

(** ** Proof support *)

(** Case analysis on every test and every checked operation that a
    hypothesis about the result of a call goes through. *)
Ltac break_call H :=
  unfold mbind, Result_bind, mret, Result_ret in H;
  repeat match type of H with
  | context [match ?x with _ => _ end] =>
      lazymatch x with
      | context [match _ with _ => _ end] => fail
      | _ => destruct x eqn:?; simpl in H; try discriminate H
      end
  end.

(** Turn the boolean tests collected by a case analysis into propositions. *)
Ltac reflect_tests :=
  repeat match goal with
  | H : (_ <=? _) = true |- _ => apply N.leb_le in H
  | H : (_ <=? _) = false |- _ => apply N.leb_gt in H
  | H : (_ <? _) = true |- _ => apply N.ltb_lt in H
  | H : (_ <? _) = false |- _ => apply N.ltb_ge in H
  | H : (_ =? _) = true |- _ => apply N.eqb_eq in H
  | H : (_ =? _) = false |- _ => apply N.eqb_neq in H
  | H : (_ && _) = true |- _ => apply andb_true_iff in H as [? ?]
  | H : (_ || _) = false |- _ => apply orb_false_iff in H as [? ?]
  | H : negb _ = true |- _ => apply negb_true_iff in H
  | H : negb _ = false |- _ => apply negb_false_iff in H
  end.

(** Linear arithmetic with the quotients taken as unknowns. *)
Ltac lia_quotients :=
  repeat match goal with
  | |- context [N.div ?a ?b] =>
      let q := fresh "q" in
      let E := fresh "E" in
      remember (N.div a b) as q eqn:E in *; clear E
  | H : context [N.div ?a ?b] |- _ =>
      let q := fresh "q" in
      let E := fresh "E" in
      remember (N.div a b) as q eqn:E in *; clear E
  end;
  lia.

(** Closed facts about numerals and concrete states. *)
Ltac by_evaluation :=
  vm_compute; repeat split; first [reflexivity | discriminate | intros; discriminate].

(** ** View functions *)

(** [getHouseBalance]: the balance, what is free of it, and the reserve. *)
Definition getHouseBalance (s : State) : uint256 * uint256 * uint256 :=
  let total := balance s in
  let reserved := reserveBalance s in
  let available := if reserved <? total then total - reserved else 0 in
  (total, available, reserved).

(** [getPlayerStats]: games played, total won, total wagered. *)
Definition getPlayerStats (s : State) (player : address)
    : uint256 * uint256 * uint256 :=
  (counter (playerGamesPlayed s) player,
   counter (playerTotalWon s) player,
   counter (playerTotalWagered s) player).

(** [getPendingBet]: the slot of [player] with the two window flags.  The
    sums are checked, and [&&] evaluates its right operand only when the left
    one holds. *)
Definition getPendingBet (c : Call) (s : State) (player : address)
    : Result (uint256 * uint256 * bool * bool * bool) :=
  let bet := pendingBet s player in
  earliest ← add256 (commitBlock bet) MIN_REVEAL_DELAY;
  canReveal ← (if earliest <? block_number c then
                 deadline ← add256 (commitBlock bet) REVEAL_TIMEOUT;
                 Ok (block_number c <=? deadline)
               else Ok false);
  deadline ← add256 (commitBlock bet) REVEAL_TIMEOUT;
  let canRefund := deadline <? block_number c in
  Ok (amount bet, commitBlock bet, canReveal, canRefund, resolved bet).

(** ** Vocabulary for the statistics *)

(** The sum of a per-player counter over all players. *)
Definition total_of (m : gmap N N) : uint256 :=
  map_fold (fun _ v acc => v + acc) 0 m.

(** The entry points reserved to the owner. *)
Definition owner_only (op : Op.t) : bool :=
  match op with
  | Op.WithdrawHouse _ | Op.Pause | Op.Unpause | Op.EmergencyWithdraw
  | Op.UpdateBetLimits _ _ | Op.TransferOwnership _ | Op.RenounceOwnership => true
  | _ => false
  end.

(** No step of a trace is sent by [a]. *)
Definition others_only (a : address) (trace : list (Call * Op.t)) : bool :=
  forallb (fun step => negb (msg_sender (fst step) =? a)) trace.

(** ** Further scenarios *)

(** The house after the three commits of [overcommit_trace]. *)
Definition overcommitted : State := run sample_keccak overcommit_trace funded.

(** Bob plays a quick bet while Alice's bet is open. *)
Definition bob_between : list (Call * Op.t) :=
  [(call_at 11 bob, Op.QuickBet finney)].

(** Bob's quick bet of 1.5 finney at block 19, which hits the centre. *)
Definition bob_quick_win : State :=
  exec sample_keccak (call_at 19 bob) (Op.QuickBet 1500000000000000) alice_committed.

(** ** Properties *)

Section Properties.

Variable keccak256 : list abi_word -> bytes32.

Lemma send_Ok c v reason s s' :
  send c v reason s = Ok s' ->
  s' = set_balance (balance s - v) s /\ v <= balance s /\ call_succeeds c = true.
Proof.
  unfold send. destruct (call_succeeds c); simpl; [|discriminate].
  destruct (v <=? balance s) eqn:E; [|discriminate].
  intros [= <-]. repeat split. now apply N.leb_le.
Qed.

Lemma send_reserveBalance c v reason s s' :
  send c v reason s = Ok s' -> reserveBalance s' = reserveBalance s.
Proof. intros H. apply send_Ok in H as [-> _]. reflexivity. Qed.

(** *** C10: funding the house *)

(** C10.  [fundHouse] reverts exactly when the funded amount is zero, and a
    reverted call changes nothing and emits nothing.  For every positive
    amount it succeeds, emits [GameFunded] with the funder and the amount,
    and the new state is the old one with the deposit added to the balance:
    no counter, ledger or flag changes. *)
Theorem fundHouse_fails_iff_zero (c : Call) (value : uint256) (s : State) :
  ((exists e, fundHouse c value s = Revert e) <-> value = 0) /\
  (value = 0 ->
     fundHouse c value s = Revert (RequireFailed "Must send CELO") /\
     exec keccak256 c (Op.FundHouse value) s = s) /\
  (0 < value ->
     fundHouse c value s
       = Ok (set_balance (balance s + value) s, [GameFunded (msg_sender c) value]) /\
     exec keccak256 c (Op.FundHouse value) s = set_balance (balance s + value) s /\
     reserveBalance (exec keccak256 c (Op.FundHouse value) s) = reserveBalance s /\
     pendingBets (exec keccak256 c (Op.FundHouse value) s) = pendingBets s /\
     paused (exec keccak256 c (Op.FundHouse value) s) = paused s /\
     (totalGamesPlayed (exec keccak256 c (Op.FundHouse value) s),
      totalPayouts (exec keccak256 c (Op.FundHouse value) s),
      totalWagered (exec keccak256 c (Op.FundHouse value) s))
       = (totalGamesPlayed s, totalPayouts s, totalWagered s) /\
     (playerGamesPlayed (exec keccak256 c (Op.FundHouse value) s),
      playerTotalWon (exec keccak256 c (Op.FundHouse value) s),
      playerTotalWagered (exec keccak256 c (Op.FundHouse value) s))
       = (playerGamesPlayed s, playerTotalWon s, playerTotalWagered s)).
Proof.
  unfold exec, settle, call, fundHouse, require, credit.
  destruct (N.eq_dec value 0) as [-> | Hpos].
  - simpl. repeat split; eauto; intros; lia.
  - assert (Hlt : (0 <? value) = true) by (apply N.ltb_lt; lia).
    rewrite Hlt. simpl. repeat split; try congruence; try lia.
    intros [e He]. discriminate He.
Qed.

(** *** C9: the quick path and the reserve *)

Lemma quickBet_reserveBalance c value s s' evs :
  quickBet keccak256 c value s = Ok (s', evs) -> reserveBalance s' = reserveBalance s.
Proof.
  intros H. unfold quickBet, whenNotPaused in H.
  break_call H; injection H as <- <-;
    repeat match goal with
    | E : send _ _ _ _ = Ok _ |- _ => apply send_Ok in E as (-> & _ & _)
    end; reflexivity.
Qed.

(** C9.  [quickBet] never modifies [reserveBalance]: whether the call
    resolves the bet, refunds the caller because the house cannot cover it,
    or reverts, the reserve after the call is the reserve before it.  The
    same holds for every entry point other than [commitBet], [revealBet] and
    [refundExpiredBet]. *)
Theorem quickBet_preserves_reserve (c : Call) (value : uint256) (s : State) :
  reserveBalance (exec keccak256 c (Op.QuickBet value) s) = reserveBalance s /\
  (forall s' evs, quickBet keccak256 c value s = Ok (s', evs) ->
                  reserveBalance s' = reserveBalance s) /\
  (forall op, touches_reserve op = false ->
              reserveBalance (exec keccak256 c op s) = reserveBalance s).
Proof.
  split; [|split].
  - unfold exec, settle, call.
    destruct (quickBet keccak256 c value s) as [[s' evs]|e] eqn:H; [|reflexivity].
    eapply quickBet_reserveBalance; eassumption.
  - intros s' evs H. eapply quickBet_reserveBalance; eassumption.
  - intros op Hop. unfold exec, settle.
    destruct (call keccak256 c op s) as [[s' evs]|e] eqn:H; [|reflexivity].
    destruct op; try discriminate Hop; simpl in H.
    + eapply quickBet_reserveBalance; eassumption.
    + unfold fundHouse, require in H. break_call H. now injection H as <- <-.
    + unfold withdrawHouse, onlyOwner, require in H. break_call H.
      injection H as <- <-. eapply send_reserveBalance; eassumption.
    + unfold pause, onlyOwner, whenNotPaused in H. break_call H.
      now injection H as <- <-.
    + unfold unpause, onlyOwner, whenPaused in H. break_call H.
      now injection H as <- <-.
    + unfold emergencyWithdraw, onlyOwner, whenPaused in H. break_call H.
      injection H as <- <-. eapply send_reserveBalance; eassumption.
    + unfold updateBetLimits, onlyOwner, require in H. break_call H.
      now injection H as <- <-.
    + unfold receive in H. now injection H as <- <-.
    + unfold transferOwnership, onlyOwner in H. break_call H.
      now injection H as <- <-.
    + unfold renounceOwnership, onlyOwner in H. break_call H.
      now injection H as <- <-.
Qed.

(** *** C4: the pause switch *)

(** C4 (amended).  While the engine is paused, [commitBet], [revealBet] and
    [quickBet] each revert with [EnforcedPause] and leave the whole state
    unchanged.  [refundExpiredBet] carries no pause gate: it neither reads
    nor writes the pause flag, so it behaves while paused exactly as it does
    otherwise. *)
Theorem paused_disables_betting (c : Call) (s : State) :
  paused s = true ->
  (forall value hash,
     commitBet c value hash s = Revert EnforcedPause /\
     exec keccak256 c (Op.CommitBet value hash) s = s) /\
  (forall secret,
     revealBet keccak256 c secret s = Revert EnforcedPause /\
     exec keccak256 c (Op.RevealBet secret) s = s) /\
  (forall value,
     quickBet keccak256 c value s = Revert EnforcedPause /\
     exec keccak256 c (Op.QuickBet value) s = s) /\
  (forall flag,
     refundExpiredBet c (set_paused flag s)
       = match refundExpiredBet c s with
         | Ok (s', evs) => Ok (set_paused flag s', evs)
         | Revert e => Revert e
         end).
Proof.
  intros Hp. repeat split.
  - unfold commitBet, whenNotPaused, credit. simpl. now rewrite Hp.
  - unfold exec, settle, call, commitBet, whenNotPaused, credit. simpl.
    now rewrite Hp.
  - unfold revealBet, whenNotPaused. now rewrite Hp.
  - unfold exec, settle, call, revealBet, whenNotPaused. now rewrite Hp.
  - unfold quickBet, whenNotPaused, credit. simpl. now rewrite Hp.
  - unfold exec, settle, call, quickBet, whenNotPaused, credit. simpl.
    now rewrite Hp.
  - intros flag. unfold refundExpiredBet, pendingBet, send, add256, sub256, mul256.
    unfold mbind, Result_bind. simpl.
    repeat match goal with
    | |- context [if ?b then _ else _] =>
        lazymatch b with
        | context [if _ then _ else _] => fail
        | _ => destruct b eqn:?; simpl
        end
    end; reflexivity.
Qed.

(** *** C3: owner withdrawals *)

(** C3 (amended).  [withdrawHouse] never pays out reserved funds: a request
    for more than the balance minus [reserveBalance] reverts and changes
    nothing (for the owner of a covered reserve, with the message "Cannot
    withdraw reserved funds"), and after a successful [withdrawHouse] the
    balance has dropped
    by the amount, the reserve and the ledger are untouched, and the balance
    still covers the reserve.  [emergencyWithdraw] is the owner's other way
    out: it succeeds only for the owner while the engine is paused, and then
    pays out the whole balance whatever the reserve is. *)
Theorem withdrawHouse_keeps_reserve (c : Call) (amount : uint256) (s : State) :
  (balance s < reserveBalance s + amount ->
     (exists e, withdrawHouse c amount s = Revert e) /\
     exec keccak256 c (Op.WithdrawHouse amount) s = s /\
     (msg_sender c = owner s -> reserveBalance s <= balance s ->
        withdrawHouse c amount s
          = Revert (RequireFailed "Cannot withdraw reserved funds"))) /\
  (forall s' evs,
     withdrawHouse c amount s = Ok (s', evs) ->
     msg_sender c = owner s /\
     balance s' = balance s - amount /\
     reserveBalance s' = reserveBalance s /\
     pendingBets s' = pendingBets s /\
     reserveBalance s' <= balance s') /\
  (forall s' evs,
     emergencyWithdraw c s = Ok (s', evs) ->
     msg_sender c = owner s /\
     paused s = true /\
     balance s' = 0 /\
     reserveBalance s' = reserveBalance s /\
     pendingBets s' = pendingBets s /\
     evs = [EmergencyWithdraw (msg_sender c) (balance s)]).
Proof.
  split; [|split].
  - intros Hover.
    assert (Hrev : exists e, withdrawHouse c amount s = Revert e).
    { destruct (withdrawHouse c amount s) as [[s' evs]|e] eqn:H; [|eauto].
      exfalso. unfold withdrawHouse, onlyOwner, require, sub256 in H.
      break_call H. reflect_tests. lia. }
    split; [exact Hrev|]. split.
    + destruct Hrev as [e He]. unfold exec, settle, call. now rewrite He.
    + intros Howner Hcovered. unfold withdrawHouse, onlyOwner, require, sub256.
      rewrite Howner, N.eqb_refl.
      replace (reserveBalance s <=? balance s) with true
        by (symmetry; apply N.leb_le; exact Hcovered).
      unfold mbind, Result_bind.
      replace (amount <=? balance s - reserveBalance s) with false
        by (symmetry; apply N.leb_gt; lia).
      reflexivity.
  - intros s' evs H. unfold withdrawHouse, onlyOwner, require, sub256 in H.
    break_call H. injection H as <- <-.
    match goal with
    | E : send _ _ _ _ = Ok _ |- _ => apply send_Ok in E as (-> & ? & ?)
    end.
    reflect_tests. simpl. repeat split; try congruence; lia.
  - intros s' evs H. unfold emergencyWithdraw, onlyOwner, whenPaused in H.
    break_call H. injection H as <- <-.
    match goal with
    | E : send _ _ _ _ = Ok _ |- _ => apply send_Ok in E as (-> & ? & ?)
    end.
    reflect_tests. simpl. repeat split; try congruence; lia.
Qed.

(** *** C2 and C7: the checks of [commitBet] *)

Lemma committed_false_test (b : PendingBet) :
  committed b = false -> (0 <? amount b) && negb (resolved b) = false.
Proof. intros H. exact H. Qed.

(** C2 (amended).  Take an engine that is not paused, a stake within
    [[minBet, maxBet]] and a caller without an open bet, with amounts that
    fit a 256-bit word; [balance s] is the balance before the call, that is
    [totalBalance] minus the incoming stake.  When that balance is below the
    worst-case payout
    [stake * 190 / 100], [commitBet] reverts with [InsufficientHouseBalance]
    carrying that balance and the required payout, and nothing changes: the
    stake is not retained.  When that balance, less what is already
    reserved, covers the worst-case payout, [commitBet] succeeds: it keeps
    the stake, records the bet at the current height and adds the worst-case
    payout to the reserve. *)
Theorem commitBet_house_cover (c : Call) (value : uint256) (hash : bytes32) (s : State) :
  paused s = false ->
  minBet s <= value <= maxBet s ->
  committed (pendingBet s (msg_sender c)) = false ->
  value * MAX_PAYOUT_MULTIPLIER <= MAX_UINT256 ->
  balance s + value <= MAX_UINT256 ->
  (balance s < worst_case_payout value ->
     commitBet c value hash s
       = Revert (InsufficientHouseBalance (balance s) (worst_case_payout value)) /\
     exec keccak256 c (Op.CommitBet value hash) s = s) /\
  (reserveBalance s + worst_case_payout value <= balance s ->
     exists s',
       commitBet c value hash s = Ok (s', [BetCommitted (msg_sender c) value hash]) /\
       exec keccak256 c (Op.CommitBet value hash) s = s' /\
       balance s' = balance s + value /\
       reserveBalance s' = reserveBalance s + worst_case_payout value /\
       pendingBet s' (msg_sender c)
         = {| amount := value; commitBlock := block_number c;
              commitHash := hash; resolved := false |}).
Proof.
  intros Hp [Hlo Hhi] Hfree Hmul Hbal.
  assert (Hcommit : forall r,
    (if balance s <? worst_case_payout value
     then Revert (InsufficientHouseBalance (balance s) (worst_case_payout value))
     else
       reserve ← add256 (reserveBalance s) (worst_case_payout value);
       Ok (set_reserveBalance reserve
             (set_pendingBet (msg_sender c)
                {| amount := value; commitBlock := block_number c;
                   commitHash := hash; resolved := false |}
                (credit value s)),
           [BetCommitted (msg_sender c) value hash])) = r ->
    commitBet c value hash s = r).
  { intros r <-. unfold commitBet, whenNotPaused, mul256, sub256.
    unfold mbind, Result_bind. simpl. rewrite Hp.
    replace (value <? minBet s) with false by (symmetry; apply N.ltb_ge; lia).
    replace (maxBet s <? value) with false by (symmetry; apply N.ltb_ge; lia).
    change (pendingBet (credit value s) (msg_sender c))
      with (pendingBet s (msg_sender c)).
    rewrite (committed_false_test _ Hfree).
    replace (value * MAX_PAYOUT_MULTIPLIER <=? MAX_UINT256) with true
      by (symmetry; apply N.leb_le; exact Hmul).
    replace (value <=? balance s + value) with true
      by (symmetry; apply N.leb_le; lia).
    replace (balance s + value - value) with (balance s) by lia.
    reflexivity. }
  split.
  - intros Hshort.
    assert (H : commitBet c value hash s
                = Revert (InsufficientHouseBalance (balance s) (worst_case_payout value))).
    { apply Hcommit.
      replace (balance s <? worst_case_payout value) with true
        by (symmetry; apply N.ltb_lt; exact Hshort).
      reflexivity. }
    split; [exact H|]. unfold exec, settle, call. now rewrite H.
  - intros Hcover. eexists.
    assert (H : commitBet c value hash s
                = Ok (set_reserveBalance (reserveBalance s + worst_case_payout value)
                        (set_pendingBet (msg_sender c)
                           {| amount := value; commitBlock := block_number c;
                              commitHash := hash; resolved := false |}
                           (credit value s)),
                      [BetCommitted (msg_sender c) value hash])).
    { apply Hcommit.
      replace (balance s <? worst_case_payout value) with false
        by (symmetry; apply N.ltb_ge; lia).
      unfold add256.
      replace (reserveBalance s + worst_case_payout value <=? MAX_UINT256) with true
        by (symmetry; apply N.leb_le; lia).
      reflexivity. }
    split; [exact H|].
    split; [unfold exec, settle, call; now rewrite H|].
    unfold pendingBet. simpl. rewrite lookup_insert_eq. repeat split.
Qed.

(** C7 (amended).  A caller who has an open bet cannot commit a second one:
    every [commitBet] by that caller reverts and leaves the whole state, and
    so the treasury counters and the caller's ledger entry, unchanged.  The
    error is [PendingBetExists] whenever the engine is not paused and the
    stake is within [[minBet, maxBet]]; the pause gate and the stake bounds
    are tested first and report [EnforcedPause], [BetTooSmall] or
    [BetTooLarge] instead. *)
Theorem commitBet_second_fails (c : Call) (value : uint256) (hash : bytes32) (s : State) :
  committed (pendingBet s (msg_sender c)) = true ->
  (exists e, commitBet c value hash s = Revert e) /\
  exec keccak256 c (Op.CommitBet value hash) s = s /\
  (paused s = false -> minBet s <= value <= maxBet s ->
     commitBet c value hash s = Revert PendingBetExists) /\
  (paused s = true -> commitBet c value hash s = Revert EnforcedPause) /\
  (paused s = false -> value < minBet s ->
     commitBet c value hash s = Revert (BetTooSmall value (minBet s))) /\
  (paused s = false -> minBet s <= value -> maxBet s < value ->
     commitBet c value hash s = Revert (BetTooLarge value (maxBet s))).
Proof.
  intros Hopen.
  assert (Hshape : commitBet c value hash s =
    if paused s then Revert EnforcedPause
    else if value <? minBet s then Revert (BetTooSmall value (minBet s))
    else if maxBet s <? value then Revert (BetTooLarge value (maxBet s))
    else Revert PendingBetExists).
  { unfold commitBet, whenNotPaused. unfold mbind, Result_bind. simpl.
    change (pendingBet (credit value s) (msg_sender c))
      with (pendingBet s (msg_sender c)).
    unfold committed in Hopen. rewrite Hopen.
    destruct (paused s), (value <? minBet s), (maxBet s <? value); reflexivity. }
  assert (Hrev : exists e, commitBet c value hash s = Revert e).
  { rewrite Hshape.
    destruct (paused s), (value <? minBet s), (maxBet s <? value); eauto. }
  split; [exact Hrev|].
  split.
  { destruct Hrev as [e He]. unfold exec, settle, call. now rewrite He. }
  rewrite Hshape. repeat split.
  - intros -> [Hlo Hhi].
    replace (value <? minBet s) with false by (symmetry; apply N.ltb_ge; lia).
    replace (maxBet s <? value) with false by (symmetry; apply N.ltb_ge; lia).
    reflexivity.
  - now intros ->.
  - intros -> Hlt.
    replace (value <? minBet s) with true by (symmetry; apply N.ltb_lt; lia).
    reflexivity.
  - intros -> Hlo Hhi.
    replace (value <? minBet s) with false by (symmetry; apply N.ltb_ge; lia).
    replace (maxBet s <? value) with true by (symmetry; apply N.ltb_lt; lia).
    reflexivity.
Qed.

(** *** C6: the checks of [revealBet] *)

Lemma committed_found (b : PendingBet) :
  committed b = true -> (amount b =? 0) || resolved b = false.
Proof.
  unfold committed. intros H. apply andb_true_iff in H as [Ha Hr].
  apply N.ltb_lt in Ha. apply negb_true_iff in Hr. rewrite Hr.
  apply orb_false_iff. split; [apply N.eqb_neq; lia | reflexivity].
Qed.

(** The three protocol checks of [revealBet], in the order the contract
    makes them, for an open bet on a running engine.  Past them the call
    can only fail on arithmetic or on the transfer. *)
Lemma revealBet_guards (c : Call) (secret : bytes32) (s : State) :
  paused s = false ->
  committed (pendingBet s (msg_sender c)) = true ->
  commitBlock (pendingBet s (msg_sender c)) + REVEAL_TIMEOUT <= MAX_UINT256 ->
  forall r, revealBet keccak256 c secret s = r ->
  if block_number c <=? commitBlock (pendingBet s (msg_sender c)) + 1 then
    r = Revert (RevealTooEarly (block_number c)
                  (commitBlock (pendingBet s (msg_sender c)) + 2))
  else if commitBlock (pendingBet s (msg_sender c)) + 256 <? block_number c then
    r = Revert (RevealTooLate (block_number c)
                  (commitBlock (pendingBet s (msg_sender c)) + 256))
  else if keccak256 [W256 secret; W160 (msg_sender c)]
            =? commitHash (pendingBet s (msg_sender c)) then
    forall e, r = Revert e ->
              e = ArithmeticPanic \/ e = RequireFailed "Payout failed"
  else
    r = Revert InvalidReveal.
Proof.
  intros Hrun Hopen Hfit r He.
  apply committed_found in Hopen.
  unfold revealBet, whenNotPaused, reveal_outcome, send, add256, sub256, mul256 in He.
  unfold REVEAL_TIMEOUT, MIN_REVEAL_DELAY in *.
  rewrite Hrun in He. cbv zeta in He.
  unfold mbind at 1 in He. unfold Result_bind at 1 in He. rewrite Hopen in He.
  break_call He; subst r; reflect_tests.
  all: repeat match goal with
       | |- if ?b then _ else _ => destruct b eqn:?; reflect_tests
       end.
  all: try lia.
  all: try reflexivity.
  all: try congruence.
  all: try (intros e [= <-]; auto).
  all: try (do 2 f_equal; lia).
Qed.

(** C6 (amended).  For an open bet on an engine that is not paused, at
    heights that fit a 256-bit word, [revealBet] fails with [RevealTooEarly] exactly when the current height
    is not strictly greater than [commitHeight + 1], with [RevealTooLate]
    exactly when the current height exceeds [commitHeight + 256], and with
    [InvalidReveal] exactly when the height is inside that window and the
    digest recomputed from the secret and the caller differs from the stored
    one (the timing checks come first).  Every failed [revealBet] leaves the
    whole state unchanged, so the bet is still open. *)
Theorem revealBet_failures (c : Call) (secret : bytes32) (s : State) :
  paused s = false ->
  committed (pendingBet s (msg_sender c)) = true ->
  commitBlock (pendingBet s (msg_sender c)) + REVEAL_TIMEOUT <= MAX_UINT256 ->
  ((exists a b, revealBet keccak256 c secret s = Revert (RevealTooEarly a b))
     <-> block_number c <= commitBlock (pendingBet s (msg_sender c)) + 1) /\
  (block_number c <= commitBlock (pendingBet s (msg_sender c)) + 1 ->
     revealBet keccak256 c secret s
       = Revert (RevealTooEarly (block_number c)
                   (commitBlock (pendingBet s (msg_sender c)) + 2))) /\
  ((exists a b, revealBet keccak256 c secret s = Revert (RevealTooLate a b))
     <-> commitBlock (pendingBet s (msg_sender c)) + 256 < block_number c) /\
  (commitBlock (pendingBet s (msg_sender c)) + 256 < block_number c ->
     revealBet keccak256 c secret s
       = Revert (RevealTooLate (block_number c)
                   (commitBlock (pendingBet s (msg_sender c)) + 256))) /\
  (revealBet keccak256 c secret s = Revert InvalidReveal
     <-> (commitBlock (pendingBet s (msg_sender c)) + 1 < block_number c
            <= commitBlock (pendingBet s (msg_sender c)) + 256 /\
          keccak256 [W256 secret; W160 (msg_sender c)]
            <> commitHash (pendingBet s (msg_sender c)))) /\
  (forall e, revealBet keccak256 c secret s = Revert e ->
     exec keccak256 c (Op.RevealBet secret) s = s /\
     committed (pendingBet (exec keccak256 c (Op.RevealBet secret) s) (msg_sender c))
       = true).
Proof.
  intros Hrun Hopen Hfit.
  pose proof (revealBet_guards c secret s Hrun Hopen Hfit _ eq_refl) as G.
  assert (Hkeep : forall e, revealBet keccak256 c secret s = Revert e ->
            exec keccak256 c (Op.RevealBet secret) s = s /\
            committed (pendingBet (exec keccak256 c (Op.RevealBet secret) s) (msg_sender c))
              = true).
  { intros e He. unfold exec, settle, call. rewrite He. split; [reflexivity|exact Hopen]. }
  split; [|split; [|split; [|split; [|split; [|exact Hkeep]]]]];
    (destruct (block_number c <=? commitBlock (pendingBet s (msg_sender c)) + 1) eqn:E1;
     [|destruct (commitBlock (pendingBet s (msg_sender c)) + 256 <? block_number c) eqn:E2;
       [|destruct (keccak256 [W256 secret; W160 (msg_sender c)]
                     =? commitHash (pendingBet s (msg_sender c))) eqn:E3]];
     reflect_tests).
  (* RevealTooEarly, exactly when *)
  - rewrite G. split; [intros _; exact E1 | eauto].
  - rewrite G. split; [intros (a & b & [=]) | intros; exfalso; lia].
  - split; [|intros; exfalso; lia].
    intros (a & b & He). destruct (G _ He); discriminate.
  - rewrite G. split; [intros (a & b & [=]) | intros; exfalso; lia].
  (* RevealTooEarly, with its arguments *)
  - intros _. exact G.
  - intros; exfalso; lia.
  - intros; exfalso; lia.
  - intros; exfalso; lia.
  (* RevealTooLate, exactly when *)
  - rewrite G. split; [intros (a & b & [=]) | intros; exfalso; lia].
  - rewrite G. split; [intros _; exact E2 | eauto].
  - split; [|intros; exfalso; lia].
    intros (a & b & He). destruct (G _ He); discriminate.
  - rewrite G. split; [intros (a & b & [=]) | intros; exfalso; lia].
  (* RevealTooLate, with its arguments *)
  - intros; exfalso; lia.
  - intros _. exact G.
  - intros; exfalso; lia.
  - intros; exfalso; lia.
  (* InvalidReveal, exactly when *)
  - rewrite G. split; [intros [=] | intros [? _]; exfalso; lia].
  - rewrite G. split; [intros [=] | intros [? _]; exfalso; lia].
  - split; [|intros [_ Hne]; congruence].
    intros He. destruct (G _ He); discriminate.
  - rewrite G. split; [intros _ | reflexivity]. split; [lia | assumption].
Qed.

(** *** C5: outcome resolution *)

Lemma reveal_outcome_spec (r stake : uint256) :
  stake * MAX_PAYOUT_MULTIPLIER <= MAX_UINT256 ->
  reveal_outcome r stake
    = Ok (tier_code (fst (resolver_spec r stake)), snd (resolver_spec r stake)).
Proof.
  intros Hfit. unfold reveal_outcome, resolver_spec, mul256.
  replace (stake * MAX_PAYOUT_MULTIPLIER <=? MAX_UINT256) with true
    by (symmetry; apply N.leb_le; exact Hfit).
  destruct (r <? 15); [reflexivity|]. destruct (r <? 50); reflexivity.
Qed.

Lemma quick_outcome_spec (r stake : uint256) :
  stake * MAX_PAYOUT_MULTIPLIER <= MAX_UINT256 ->
  quick_outcome r stake
    = Ok (tier_code (fst (resolver_spec r stake)), snd (resolver_spec r stake)).
Proof.
  intros Hfit. unfold quick_outcome, resolver_spec, mul256.
  replace (stake * MAX_PAYOUT_MULTIPLIER <=? MAX_UINT256) with true
    by (symmetry; apply N.leb_le; exact Hfit).
  destruct (r <? 15); [reflexivity|]. destruct (r <? 50); reflexivity.
Qed.

Lemma resolver_spec_cases (r stake : uint256) :
  (r < 15 -> resolver_spec r stake = (Bullseye, stake * 190 / 100)) /\
  (15 <= r < 50 -> resolver_spec r stake = (Ring, stake / 2)) /\
  (50 <= r -> resolver_spec r stake = (Miss, 0)).
Proof.
  unfold resolver_spec.
  destruct (r <? 15) eqn:E1; [|destruct (r <? 50) eqn:E2]; reflect_tests;
    repeat split; intros; first [reflexivity | exfalso; lia].
Qed.

(** A successful reveal reports, and pays, the outcome that the resolver
    gives for the random value derived from the secret, the hash of the
    block after the commit, the caller and the commit height. *)
Lemma revealBet_outcome (c : Call) (secret : bytes32) (s s' : State) (evs : list Event) :
  revealBet keccak256 c secret s = Ok (s', evs) ->
  let bet := pendingBet s (msg_sender c) in
  let r := reveal_random keccak256 secret (blockhash c (commitBlock bet + 1))
             (msg_sender c) (commitBlock bet) in
  r < 100 /\
  evs = [BetRevealed (msg_sender c) (amount bet)
           (tier_code (fst (resolver_spec r (amount bet))))
           (snd (resolver_spec r (amount bet)))] /\
  balance s' = balance s - snd (resolver_spec r (amount bet)).
Proof.
  intros H. cbv zeta. split; [apply N.mod_lt; discriminate|].
  unfold revealBet, whenNotPaused, reveal_outcome, send, add256, sub256, mul256 in H.
  unfold MAX_PAYOUT_MULTIPLIER, MIN_REVEAL_DELAY, REVEAL_TIMEOUT in H.
  unfold reveal_random, resolver_spec.
  break_call H; injection H as <- <-;
    repeat match goal with
    | E : (_ <? 15) = _ |- _ => rewrite E; clear E
    | E : (_ <? 50) = _ |- _ => rewrite E; clear E
    end; simpl; reflect_tests; split; first [reflexivity | lia_quotients].
Qed.

(** A successful quick bet either refunds the stake, when the balance before
    the call is below the worst-case payout, or reports and pays the outcome
    that the resolver gives for the quick path's random value. *)
Lemma quickBet_outcome (c : Call) (value : uint256) (s s' : State) (evs : list Event) :
  quickBet keccak256 c value s = Ok (s', evs) ->
  let r := quick_random keccak256 c (totalGamesPlayed s) in
  r < 100 /\
  ((balance s < worst_case_payout value /\
    evs = [BetRefunded (msg_sender c) value "Insufficient house balance"] /\
    balance s' = balance s) \/
   (worst_case_payout value <= balance s /\
    evs = [BetRevealed (msg_sender c) value
             (tier_code (fst (resolver_spec r value)))
             (snd (resolver_spec r value))] /\
    balance s' = balance s + value - snd (resolver_spec r value))).
Proof.
  intros H. cbv zeta. split; [apply N.mod_lt; discriminate|].
  unfold quickBet, whenNotPaused, quick_outcome, send, add256, sub256, mul256 in H.
  unfold MAX_PAYOUT_MULTIPLIER in H.
  unfold quick_random, resolver_spec, worst_case_payout, MAX_PAYOUT_MULTIPLIER.
  break_call H; injection H as <- <-;
    repeat match goal with
    | E : (_ <? 15) = _ |- _ => rewrite E; clear E
    | E : (_ <? 50) = _ |- _ => rewrite E; clear E
    end; simpl in *; reflect_tests;
    first [ left; repeat split; first [reflexivity | lia_quotients]
          | right; repeat split; first [reflexivity | lia_quotients] ].
Qed.

(** C5.  The outcome is a function of the random value and the stake alone,
    the same one on the reveal path and on the quick path, for every stake
    whose product with 190 fits a 256-bit word (every stake that a reachable
    engine accepts, see [accepted_stake_fits]): below 15 it is
    Bullseye (reported as 2) paying [stake * 190 / 100], from 15 and below 50
    it is Ring (1) paying [stake / 2], from 50 on it is Miss (0) paying
    nothing, all with truncating integer division.  A successful [revealBet]
    reports and pays that outcome for the value obtained by hashing the
    secret, the hash of the block after the commit, the caller and the commit
    height, reduced modulo 100, so the same inputs always give the same tier
    and payout; a successful [quickBet] that does not refund does the same
    for its own random value. *)
Theorem outcome_resolution (r stake : uint256) :
  stake * MAX_PAYOUT_MULTIPLIER <= MAX_UINT256 ->
  reveal_outcome r stake = quick_outcome r stake /\
  (r < 15 ->
     reveal_outcome r stake = Ok (tier_code Bullseye, stake * 190 / 100)) /\
  (15 <= r < 50 ->
     reveal_outcome r stake = Ok (tier_code Ring, stake / 2)) /\
  (50 <= r ->
     reveal_outcome r stake = Ok (tier_code Miss, 0)) /\
  (forall c secret s s' evs,
     revealBet keccak256 c secret s = Ok (s', evs) ->
     amount (pendingBet s (msg_sender c)) = stake ->
     reveal_random keccak256 secret
       (blockhash c (commitBlock (pendingBet s (msg_sender c)) + 1))
       (msg_sender c) (commitBlock (pendingBet s (msg_sender c))) = r ->
     r < 100 /\
     Ok (tier_code (fst (resolver_spec r stake)), snd (resolver_spec r stake))
       = reveal_outcome r stake /\
     evs = [BetRevealed (msg_sender c) stake
              (tier_code (fst (resolver_spec r stake)))
              (snd (resolver_spec r stake))] /\
     balance s' = balance s - snd (resolver_spec r stake)) /\
  (forall c s s' evs,
     quickBet keccak256 c stake s = Ok (s', evs) ->
     quick_random keccak256 c (totalGamesPlayed s) = r ->
     evs <> [BetRefunded (msg_sender c) stake "Insufficient house balance"] ->
     r < 100 /\
     Ok (tier_code (fst (resolver_spec r stake)), snd (resolver_spec r stake))
       = quick_outcome r stake /\
     evs = [BetRevealed (msg_sender c) stake
              (tier_code (fst (resolver_spec r stake)))
              (snd (resolver_spec r stake))] /\
     balance s' = balance s + stake - snd (resolver_spec r stake)).
Proof.
  intros Hfit.
  pose proof (reveal_outcome_spec r stake Hfit) as Hrev.
  pose proof (quick_outcome_spec r stake Hfit) as Hquick.
  destruct (resolver_spec_cases r stake) as (Hb & Hr & Hm).
  split; [congruence|].
  split; [intros Hc; rewrite Hrev, (Hb Hc); reflexivity|].
  split; [intros Hc; rewrite Hrev, (Hr Hc); reflexivity|].
  split; [intros Hc; rewrite Hrev, (Hm Hc); reflexivity|].
  split.
  - intros c secret s s' evs H Hstake Hrand.
    destruct (revealBet_outcome c secret s s' evs H) as (Hlt & Hev & Hbal).
    rewrite Hstake, Hrand in *. repeat split; auto.
  - intros c s s' evs H Hrand Hplayed.
    destruct (quickBet_outcome c stake s s' evs H) as (Hlt & Hcases).
    rewrite Hrand in *.
    destruct Hcases as [(_ & Hev & _) | (_ & Hev & Hbal)]; [contradiction|].
    repeat split; auto.
Qed.

(** *** The ledger and the reserve, call by call *)

(** What a successful call does to the ledger and to the reserve. *)
Lemma call_effect (c : Call) (op : Op.t) (s s' : State) (evs : list Event) :
  call keccak256 c op s = Ok (s', evs) ->
  match op with
  | Op.CommitBet value hash =>
      committed (pendingBet s (msg_sender c)) = false /\
      pendingBets s'
        = <[msg_sender c := {| amount := value; commitBlock := block_number c;
                               commitHash := hash; resolved := false |}]>
            (pendingBets s) /\
      reserveBalance s' = reserveBalance s + worst_case_payout value
  | Op.RevealBet _ | Op.RefundExpiredBet =>
      committed (pendingBet s (msg_sender c)) = true /\
      pendingBets s'
        = <[msg_sender c := mark_resolved (pendingBet s (msg_sender c))]>
            (pendingBets s) /\
      reserveBalance s' + worst_case_payout (amount (pendingBet s (msg_sender c)))
        = reserveBalance s
  | _ =>
      pendingBets s' = pendingBets s /\ reserveBalance s' = reserveBalance s
  end.
Proof.
  intros H. destruct op; simpl in H.
  - unfold commitBet, whenNotPaused, add256, sub256, mul256 in H.
    change (pendingBet (credit value s) (msg_sender c))
      with (pendingBet s (msg_sender c)) in H.
    break_call H. injection H as <- <-. unfold committed, worst_case_payout.
    simpl. repeat split; assumption || reflexivity.
  - unfold revealBet, whenNotPaused, reveal_outcome, send, add256, sub256, mul256 in H.
    break_call H; injection H as <- <-; reflect_tests;
      unfold committed, worst_case_payout, mark_resolved; simpl;
      (repeat split; [ apply andb_true_iff; split;
                         [apply N.ltb_lt; lia | apply negb_true_iff; assumption]
                     | lia_quotients ]).
  - unfold refundExpiredBet, send, add256, sub256, mul256 in H.
    break_call H; injection H as <- <-; reflect_tests;
      unfold committed, worst_case_payout, mark_resolved; simpl;
      (repeat split; [ apply andb_true_iff; split;
                         [apply N.ltb_lt; lia | apply negb_true_iff; assumption]
                     | lia_quotients ]).
  - unfold quickBet, whenNotPaused, quick_outcome, send, add256, sub256, mul256 in H.
    break_call H; injection H as <- <-; split; reflexivity.
  - unfold fundHouse, require in H. break_call H. injection H as <- <-.
    split; reflexivity.
  - unfold withdrawHouse, onlyOwner, require, send, sub256 in H. break_call H.
    injection H as <- <-. split; reflexivity.
  - unfold pause, onlyOwner, whenNotPaused in H. break_call H.
    injection H as <- <-. split; reflexivity.
  - unfold unpause, onlyOwner, whenPaused in H. break_call H.
    injection H as <- <-. split; reflexivity.
  - unfold emergencyWithdraw, onlyOwner, whenPaused, send in H. break_call H.
    injection H as <- <-. split; reflexivity.
  - unfold updateBetLimits, onlyOwner, require in H. break_call H.
    injection H as <- <-. split; reflexivity.
  - unfold receive in H. injection H as <- <-. split; reflexivity.
  - unfold transferOwnership, onlyOwner in H. break_call H.
    injection H as <- <-. split; reflexivity.
  - unfold renounceOwnership, onlyOwner in H. break_call H.
    injection H as <- <-. split; reflexivity.
Qed.

(** *** C8: a bet is resolved once *)

(** A resolved slot stays resolved until its owner commits again. *)
Lemma resolved_stays (a : address) (c : Call) (op : Op.t) (s : State) :
  commits_for a (c, op) = false ->
  resolved (pendingBet s a) = true ->
  resolved (pendingBet (exec keccak256 c op s) a) = true.
Proof.
  intros Hother Hres. unfold exec, settle.
  destruct (call keccak256 c op s) as [[s' evs]|e] eqn:H; [|exact Hres].
  apply call_effect in H. unfold pendingBet in *.
  destruct op; simpl in Hother;
    try (destruct H as [-> _]; exact Hres).
  - destruct H as (_ & -> & _). apply N.eqb_neq in Hother.
    rewrite lookup_insert_ne by exact Hother. exact Hres.
  - destruct H as (_ & -> & _).
    destruct (N.eq_dec (msg_sender c) a) as [->|Hne].
    + rewrite lookup_insert_eq. reflexivity.
    + rewrite lookup_insert_ne by exact Hne. exact Hres.
  - destruct H as (_ & -> & _).
    destruct (N.eq_dec (msg_sender c) a) as [->|Hne].
    + rewrite lookup_insert_eq. reflexivity.
    + rewrite lookup_insert_ne by exact Hne. exact Hres.
Qed.

Lemma resolved_after_run (a : address) (trace : list (Call * Op.t)) (s : State) :
  forallb (fun step => negb (commits_for a step)) trace = true ->
  resolved (pendingBet s a) = true ->
  resolved (pendingBet (run keccak256 trace s) a) = true.
Proof.
  revert s. induction trace as [|[c op] rest IH]; intros s Hnone Hres.
  - exact Hres.
  - simpl in Hnone. apply andb_true_iff in Hnone as [Hstep Hrest].
    apply negb_true_iff in Hstep. simpl. apply IH; [exact Hrest|].
    apply resolved_stays; assumption.
Qed.

(** On a resolved slot both terminal transitions are refused. *)
Lemma resolved_refuses (c : Call) (s : State) :
  resolved (pendingBet s (msg_sender c)) = true ->
  refundExpiredBet c s = Revert NoPendingBet /\
  (forall secret,
     revealBet keccak256 c secret s
       = Revert (if paused s then EnforcedPause else NoPendingBet)).
Proof.
  intros Hres. split.
  - unfold refundExpiredBet. cbv zeta. rewrite Hres, orb_true_r. reflexivity.
  - intros secret. unfold revealBet, whenNotPaused.
    destruct (paused s); [reflexivity|].
    unfold mbind, Result_bind. cbv zeta. rewrite Hres, orb_true_r. reflexivity.
Qed.

(** C8 (amended).  [revealBet] and [refundExpiredBet] are mutually exclusive
    terminal transitions of a bet.  Once either has succeeded for a caller,
    the slot is marked resolved, and after any further calls among which that
    caller makes no new [commitBet], every [refundExpiredBet] by the caller
    fails with [NoPendingBet] and every [revealBet] by the caller fails, with
    [NoPendingBet] while the engine is not paused and with [EnforcedPause]
    while it is.  The bet is never paid out or refunded twice. *)
Theorem resolve_exactly_once
    (c : Call) (op : Op.t) (s s' : State) (evs : list Event)
    (trace : list (Call * Op.t)) (c' : Call) :
  (exists secret, op = Op.RevealBet secret) \/ op = Op.RefundExpiredBet ->
  call keccak256 c op s = Ok (s', evs) ->
  forallb (fun step => negb (commits_for (msg_sender c) step)) trace = true ->
  msg_sender c' = msg_sender c ->
  resolved (pendingBet (run keccak256 trace s') (msg_sender c)) = true /\
  refundExpiredBet c' (run keccak256 trace s') = Revert NoPendingBet /\
  (forall secret',
     revealBet keccak256 c' secret' (run keccak256 trace s')
       = Revert (if paused (run keccak256 trace s')
                 then EnforcedPause else NoPendingBet)) /\
  (forall op',
     (exists secret', op' = Op.RevealBet secret') \/ op' = Op.RefundExpiredBet ->
     exec keccak256 c' op' (run keccak256 trace s') = run keccak256 trace s').
Proof.
  intros Hop Hcall Hnone Hsame.
  assert (Hres : resolved (pendingBet s' (msg_sender c)) = true).
  { apply call_effect in Hcall.
    destruct Hop as [[secret ->] | ->]; destruct Hcall as (_ & Hledger & _);
      unfold pendingBet; rewrite Hledger, lookup_insert_eq; reflexivity. }
  pose proof (resolved_after_run _ trace s' Hnone Hres) as Hlater.
  split; [exact Hlater|].
  rewrite <- Hsame in Hlater.
  destruct (resolved_refuses c' _ Hlater) as [Hrefund Hreveal].
  split; [exact Hrefund|]. split; [exact Hreveal|].
  intros op' [[secret' ->] | ->]; unfold exec, settle, call.
  - now rewrite Hreveal.
  - now rewrite Hrefund.
Qed.

(** *** C1: what the reserve counts *)

Lemma reachable_run (trace : list (Call * Op.t)) (s : State) :
  reachable keccak256 s -> reachable keccak256 (run keccak256 trace s).
Proof.
  revert s. induction trace as [|[c op] rest IH]; intros s Hs; [exact Hs|].
  simpl. apply IH. now constructor.
Qed.

Lemma open_liability_fresh (a : address) (b : PendingBet) (m : gmap N PendingBet) :
  m !! a = None ->
  open_liability (<[a:=b]> m) = slot_liability b + open_liability m.
Proof.
  intros Hnone. unfold open_liability.
  apply (map_fold_insert_L (fun _ b acc => slot_liability b + acc)); [|exact Hnone].
  intros. lia.
Qed.

(** Writing a slot replaces its old share of the liability by the new one. *)
Lemma open_liability_insert (a : address) (b : PendingBet) (m : gmap N PendingBet) :
  open_liability (<[a:=b]> m) + slot_liability (default noBet (m !! a))
    = open_liability m + slot_liability b.
Proof.
  destruct (m !! a) as [old|] eqn:Hold; simpl.
  - rewrite <- (insert_delete_eq m a b).
    rewrite <- (insert_delete_id m a old Hold) at 2.
    rewrite !open_liability_fresh by apply lookup_delete_eq. lia.
  - rewrite open_liability_fresh by exact Hold.
    unfold slot_liability at 2. simpl. lia.
Qed.

(** In every reachable state [reserveBalance] is the sum of
    [stake * 190 / 100] over the open bets: the second half of the solvency
    property. *)
Lemma reserve_counts_open_bets (s : State) :
  reachable keccak256 s -> reserveBalance s = open_liability (pendingBets s).
Proof.
  induction 1 as [deployer funds | c op s Hreach IH].
  - reflexivity.
  - unfold exec, settle.
    destruct (call keccak256 c op s) as [[s' evs]|e] eqn:H; [|exact IH].
    apply call_effect in H. unfold pendingBet in H.
    pose proof (open_liability_insert (msg_sender c)) as Hins.
    destruct op as [value hash|secret| |value|value|amount| | | |lo hi|value|newOwner| ];
      try (destruct H as [-> ->]; exact IH).
    + destruct H as (Hfree & -> & ->).
      specialize (Hins {| amount := value; commitBlock := block_number c;
                          commitHash := hash; resolved := false |} (pendingBets s)).
      unfold slot_liability in Hins. rewrite Hfree in Hins.
      unfold committed in Hins. simpl in Hins.
      destruct (0 <? value) eqn:Hv; simpl in Hins; [lia|].
      apply N.ltb_ge in Hv. assert (value = 0) as -> by lia.
      unfold worst_case_payout. change (0 * MAX_PAYOUT_MULTIPLIER / 100) with 0. lia.
    + destruct H as (Hopen & -> & Hrel).
      specialize (Hins (mark_resolved (default noBet (pendingBets s !! msg_sender c)))
                  (pendingBets s)).
      unfold slot_liability in Hins. rewrite Hopen in Hins.
      unfold committed in Hins. unfold mark_resolved in *. simpl in Hins.
      rewrite andb_false_r in Hins. lia.
    + destruct H as (Hopen & -> & Hrel).
      specialize (Hins (mark_resolved (default noBet (pendingBets s !! msg_sender c)))
                  (pendingBets s)).
      unfold slot_liability in Hins. rewrite Hopen in Hins.
      unfold committed in Hins. unfold mark_resolved in *. simpl in Hins.
      rewrite andb_false_r in Hins. lia.
Qed.

(** *** Stakes fit a word *)

(** Only [updateBetLimits] writes the bet limits, and it checks them. *)
Lemma call_limits (c : Call) (op : Op.t) (s s' : State) (evs : list Event) :
  call keccak256 c op s = Ok (s', evs) ->
  match op with
  | Op.UpdateBetLimits lo hi =>
      minBet s' = lo /\ maxBet s' = hi /\ 0 < lo < hi /\ hi <= 10000000000000000
  | _ => minBet s' = minBet s /\ maxBet s' = maxBet s
  end.
Proof.
  intros H. destruct op; simpl in H.
  - unfold commitBet, whenNotPaused, add256, sub256, mul256 in H.
    break_call H. injection H as <- <-. split; reflexivity.
  - unfold revealBet, whenNotPaused, reveal_outcome, send, add256, sub256, mul256 in H.
    break_call H; injection H as <- <-; split; reflexivity.
  - unfold refundExpiredBet, send, add256, sub256, mul256 in H.
    break_call H; injection H as <- <-; split; reflexivity.
  - unfold quickBet, whenNotPaused, quick_outcome, send, add256, sub256, mul256 in H.
    break_call H; injection H as <- <-; split; reflexivity.
  - unfold fundHouse, require in H. break_call H. injection H as <- <-.
    split; reflexivity.
  - unfold withdrawHouse, onlyOwner, require, send, sub256 in H. break_call H.
    injection H as <- <-. split; reflexivity.
  - unfold pause, onlyOwner, whenNotPaused in H. break_call H.
    injection H as <- <-. split; reflexivity.
  - unfold unpause, onlyOwner, whenPaused in H. break_call H.
    injection H as <- <-. split; reflexivity.
  - unfold emergencyWithdraw, onlyOwner, whenPaused, send in H. break_call H.
    injection H as <- <-. split; reflexivity.
  - unfold updateBetLimits, onlyOwner, require in H. break_call H.
    injection H as <- <-. reflect_tests. simpl. repeat split; assumption.
  - unfold receive in H. injection H as <- <-. split; reflexivity.
  - unfold transferOwnership, onlyOwner in H. break_call H.
    injection H as <- <-. split; reflexivity.
  - unfold renounceOwnership, onlyOwner in H. break_call H.
    injection H as <- <-. split; reflexivity.
Qed.

(** The bet limits of a reachable state: positive, ordered, and at most
    [0.01 ether]. *)
Lemma reachable_limits (s : State) :
  reachable keccak256 s ->
  0 < minBet s < maxBet s /\ maxBet s <= 10000000000000000.
Proof.
  induction 1 as [deployer funds | c op s Hreach IH].
  - by_evaluation.
  - unfold exec, settle.
    destruct (call keccak256 c op s) as [[s' evs]|e] eqn:H; [|exact IH].
    apply call_limits in H.
    destruct op; try (destruct H as [-> ->]; exact IH).
    destruct H as (-> & -> & Hord & Hcap). split; assumption.
Qed.

(** So the worst-case payout of every stake a reachable engine accepts is
    computed without overflow. *)
Lemma accepted_stake_fits (s : State) (value : uint256) :
  reachable keccak256 s -> value <= maxBet s ->
  value * MAX_PAYOUT_MULTIPLIER <= MAX_UINT256.
Proof.
  intros Hreach Hle. destruct (reachable_limits s Hreach) as [_ Hcap].
  unfold MAX_PAYOUT_MULTIPLIER, MAX_UINT256.
  transitivity (10000000000000000 * 190); [|by_evaluation].
  apply N.mul_le_mono_r. lia.
Qed.

(** *** Where the cover of the reserve is kept *)

Lemma stake_le_worst_case (stake : uint256) : stake <= stake * 190 / 100.
Proof. apply N.div_le_lower_bound; lia. Qed.

Lemma half_le_worst_case (stake : uint256) : stake / 2 <= stake * 190 / 100.
Proof.
  transitivity stake; [|apply stake_le_worst_case].
  apply N.Div0.div_le_upper_bound. lia.
Qed.

(** Every call other than [commitBet], [quickBet] and [emergencyWithdraw]
    keeps the balance above the reserve: a reveal pays at most what it
    releases, a refund returns less than it releases, and [withdrawHouse]
    stops at the reserve. *)
Lemma cover_kept (c : Call) (op : Op.t) (s : State) :
  may_uncover_reserve op = false ->
  reserveBalance s <= balance s ->
  reserveBalance (exec keccak256 c op s) <= balance (exec keccak256 c op s).
Proof.
  intros Hop Hcover. unfold exec, settle.
  destruct (call keccak256 c op s) as [[s' evs]|e] eqn:H; [|exact Hcover].
  destruct op; try discriminate Hop; simpl in H.
  - unfold revealBet, whenNotPaused, reveal_outcome, send, add256, sub256, mul256 in H.
    unfold MAX_PAYOUT_MULTIPLIER in H.
    pose proof (half_le_worst_case (amount (pendingBet s (msg_sender c)))).
    break_call H; injection H as <- <-; reflect_tests; simpl in *; lia_quotients.
  - unfold refundExpiredBet, send, add256, sub256, mul256 in H.
    unfold MAX_PAYOUT_MULTIPLIER in H.
    pose proof (stake_le_worst_case (amount (pendingBet s (msg_sender c)))).
    break_call H; injection H as <- <-; reflect_tests; simpl in *; lia_quotients.
  - unfold fundHouse, require in H. break_call H. injection H as <- <-.
    simpl. lia.
  - unfold withdrawHouse, onlyOwner, require, send, sub256 in H. break_call H.
    injection H as <- <-. reflect_tests. simpl. lia.
  - unfold pause, onlyOwner, whenNotPaused in H. break_call H.
    injection H as <- <-. exact Hcover.
  - unfold unpause, onlyOwner, whenPaused in H. break_call H.
    injection H as <- <-. exact Hcover.
  - unfold updateBetLimits, onlyOwner, require in H. break_call H.
    injection H as <- <-. exact Hcover.
  - unfold receive in H. injection H as <- <-. simpl. lia.
  - unfold transferOwnership, onlyOwner in H. break_call H.
    injection H as <- <-. exact Hcover.
  - unfold renounceOwnership, onlyOwner in H. break_call H.
    injection H as <- <-. exact Hcover.
Qed.

End Properties.

(** ** The contract on concrete inputs *)

(** The digests used in the scenarios. *)
Example sample_digests :
  sample_keccak [W256 7; W160 alice] = 9865 /\
  sample_keccak [W256 7; W160 bob] = 9896 /\
  sample_keccak [W256 7; W160 carol] = 9927.
Proof. by_evaluation. Qed.

(** Scenarios A, B and C of the specification: a stake of 1000 units at
    random values 10, 30 and 70. *)
Example scenario_outcomes :
  reveal_outcome 10 1000 = Ok (2, 1900) /\
  reveal_outcome 30 1000 = Ok (1, 500) /\
  reveal_outcome 70 1000 = Ok (0, 0).
Proof. by_evaluation. Qed.

(** Scenario E: after the window the reveal is refused and the refund
    returns the stake and releases the reserve. *)
Example scenario_timeout :
  revealBet sample_keccak (call_at 310 alice) 7 alice_committed
    = Revert (RevealTooLate 310 266) /\
  balance (exec sample_keccak (call_at 310 alice) Op.RefundExpiredBet alice_committed)
    = balance alice_committed - finney /\
  reserveBalance (exec sample_keccak (call_at 310 alice) Op.RefundExpiredBet alice_committed)
    = 0.
Proof. by_evaluation. Qed.

(** *** C1: three commits against the cover of one *)

(** C1 (failing input).  The house holds 1.9 finney, the worst-case payout of
    a single one-finney bet.  Alice, Bob and Carol each commit one finney:
    all three commits are accepted, because [commitBet] compares the payout
    with the balance less the incoming stake and never subtracts what is
    already reserved.  The state is reachable, the reserve is the sum of the
    three worst-case payouts, 5.7 finney, and the balance is 4.9 finney: the
    reserve exceeds the balance. *)
Theorem overcommit_breaks_solvency :
  reachable sample_keccak (run sample_keccak overcommit_trace funded) /\
  balance funded = 1900000000000000 /\
  reserveBalance funded = 0 /\
  balance (run sample_keccak overcommit_trace funded) = 4900000000000000 /\
  reserveBalance (run sample_keccak overcommit_trace funded) = 5700000000000000 /\
  open_liability (pendingBets (run sample_keccak overcommit_trace funded))
    = reserveBalance (run sample_keccak overcommit_trace funded) /\
  balance (run sample_keccak overcommit_trace funded)
    < reserveBalance (run sample_keccak overcommit_trace funded).
Proof.
  split.
  - apply reachable_run. unfold funded. apply reachable_run. constructor.
  - by_evaluation.
Qed.

(** The quick path has the same blind spot: with Alice's bet open, Bob's
    quick bet of 1.5 finney hits the centre and is paid 2.85 finney, which
    leaves 1.55 finney under a reserve of 1.9 finney. *)
Example quickBet_pays_from_reserve :
  reserveBalance alice_committed <= balance alice_committed /\
  quick_random sample_keccak (call_at 19 bob) (totalGamesPlayed alice_committed) = 2 /\
  balance (exec sample_keccak (call_at 19 bob) (Op.QuickBet 1500000000000000)
             alice_committed) = 1550000000000000 /\
  reserveBalance (exec sample_keccak (call_at 19 bob) (Op.QuickBet 1500000000000000)
                    alice_committed) = 1900000000000000.
Proof. by_evaluation. Qed.

(** *** C2 *)

(** The house holds one finney and nothing is reserved.  With Alice's stake
    of one finney the total balance less the reserve is two finney, above
    the worst-case payout of 1.9 finney, and yet the commit is refused: the
    incoming stake does not count as cover. *)
Lemma commitBet_ignores_incoming_stake :
  paused (deploy house finney) = false /\
  minBet (deploy house finney) <= finney <= maxBet (deploy house finney) /\
  committed (pendingBet (deploy house finney) alice) = false /\
  worst_case_payout finney
    <= (balance (deploy house finney) + finney) - reserveBalance (deploy house finney) /\
  commitBet (call_at 10 alice) finney 9865 (deploy house finney)
    = Revert (InsufficientHouseBalance 1000000000000000 1900000000000000).
Proof. by_evaluation. Qed.

(** The refusal above and an accepted commit, as instances of the theorem. *)
Lemma commitBet_house_cover_witness :
  commitBet (call_at 10 alice) finney 9865 (deploy house finney)
    = Revert (InsufficientHouseBalance (balance (deploy house finney))
                (worst_case_payout finney)) /\
  exists s',
    commitBet (call_at 10 alice) finney 9865 funded
      = Ok (s', [BetCommitted alice finney 9865]) /\
    reserveBalance s' = reserveBalance funded + worst_case_payout finney.
Proof.
  split.
  - refine (proj1 (proj1 (commitBet_house_cover sample_keccak (call_at 10 alice)
                            finney 9865 (deploy house finney) _ _ _ _ _) _));
      by_evaluation.
  - destruct (proj2 (commitBet_house_cover sample_keccak (call_at 10 alice)
                       finney 9865 funded
                       ltac:(by_evaluation) ltac:(by_evaluation) ltac:(by_evaluation)
                       ltac:(by_evaluation) ltac:(by_evaluation))
                ltac:(by_evaluation)) as (s' & Hok & _ & _ & Hres & _).
    exists s'. split; [exact Hok | exact Hres].
Defined.

(** *** C3 *)

(** On the paused engine with Alice's bet open the owner's emergency
    withdrawal empties the contract: the reserve of 1.9 finney is no longer
    covered. *)
Lemma emergencyWithdraw_takes_reserved_funds :
  msg_sender (call_at 12 house) = owner alice_committed_paused /\
  reserveBalance alice_committed_paused = 1900000000000000 /\
  balance alice_committed_paused = 2900000000000000 /\
  (exists evs,
     emergencyWithdraw (call_at 12 house) alice_committed_paused
       = Ok (set_balance 0 alice_committed_paused, evs)) /\
  ~ (reserveBalance
       (exec sample_keccak (call_at 12 house) Op.EmergencyWithdraw alice_committed_paused)
     <= balance
          (exec sample_keccak (call_at 12 house) Op.EmergencyWithdraw alice_committed_paused)).
Proof.
  repeat split; try by_evaluation.
  - eexists. vm_compute. reflexivity.
  - vm_compute. intros H. apply H. reflexivity.
Qed.

(** With Alice's bet open one finney is free: one wei more is refused. *)
Lemma withdrawHouse_keeps_reserve_witness :
  (exists e, withdrawHouse (call_at 13 house) (finney + 1) alice_committed = Revert e) /\
  (forall s' evs,
     withdrawHouse (call_at 13 house) finney alice_committed = Ok (s', evs) ->
     reserveBalance s' <= balance s').
Proof.
  split.
  - refine (proj1 (proj1 (withdrawHouse_keeps_reserve sample_keccak (call_at 13 house)
                            (finney + 1) alice_committed) _)).
    by_evaluation.
  - intros s' evs H.
    apply (proj1 (proj2 (withdrawHouse_keeps_reserve sample_keccak (call_at 13 house)
                           finney alice_committed)) s' evs H).
Defined.

(** *** C4 *)

(** On the paused engine Alice's expired bet is refunded all the same. *)
Lemma refundExpiredBet_runs_while_paused :
  paused alice_committed_paused = true /\
  committed (pendingBet alice_committed_paused alice) = true /\
  (exists s',
     refundExpiredBet (call_at 310 alice) alice_committed_paused
       = Ok (s', [BetRefunded alice finney "Reveal timeout"]) /\
     s' <> alice_committed_paused /\
     balance s' = balance alice_committed_paused - finney /\
     committed (pendingBet s' alice) = false).
Proof.
  split; [by_evaluation|]. split; [by_evaluation|].
  eexists. split; [vm_compute; reflexivity|]. by_evaluation.
Qed.

(** The three gated entry points on the paused engine. *)
Lemma paused_disables_betting_witness :
  commitBet (call_at 12 bob) finney 9896 alice_committed_paused = Revert EnforcedPause /\
  revealBet sample_keccak (call_at 12 alice) 7 alice_committed_paused
    = Revert EnforcedPause /\
  quickBet sample_keccak (call_at 12 bob) finney alice_committed_paused
    = Revert EnforcedPause.
Proof.
  pose proof (paused_disables_betting sample_keccak (call_at 12 bob)
                alice_committed_paused ltac:(by_evaluation)) as (Hc & _ & Hq & _).
  pose proof (paused_disables_betting sample_keccak (call_at 12 alice)
                alice_committed_paused ltac:(by_evaluation)) as (_ & Hr & _).
  split; [apply Hc|]. split; [apply Hr | apply Hq].
Defined.

(** *** C5 *)

(** Scenario A: a stake of 1000 units at random value 10. *)
Lemma outcome_resolution_witness :
  1000 * MAX_PAYOUT_MULTIPLIER <= MAX_UINT256 /\
  reveal_outcome 10 1000 = quick_outcome 10 1000 /\
  reveal_outcome 10 1000 = Ok (tier_code Bullseye, 1000 * 190 / 100).
Proof.
  split; [by_evaluation|].
  pose proof (outcome_resolution sample_keccak 10 1000 ltac:(by_evaluation))
    as (Hsame & Hbull & _).
  split; [exact Hsame|]. apply Hbull. by_evaluation.
Defined.

(** *** C6 *)

(** At the commit height a wrong secret is answered with [RevealTooEarly],
    not [InvalidReveal]; on a paused engine the same early call is answered
    with [EnforcedPause], not [RevealTooEarly]. *)
Lemma revealBet_reports_first_failed_check :
  committed (pendingBet alice_committed alice) = true /\
  commitBlock (pendingBet alice_committed alice) = 10 /\
  sample_keccak [W256 8; W160 alice] <> commitHash (pendingBet alice_committed alice) /\
  revealBet sample_keccak (call_at 10 alice) 8 alice_committed
    = Revert (RevealTooEarly 10 12) /\
  revealBet sample_keccak (call_at 10 alice) 8 alice_committed <> Revert InvalidReveal /\
  committed (pendingBet alice_committed_paused alice) = true /\
  revealBet sample_keccak (call_at 10 alice) 7 alice_committed_paused
    = Revert EnforcedPause.
Proof. by_evaluation. Qed.

(** Alice's bet of block 10: too early at 10, too late at 310, and a wrong
    secret inside the window. *)
Lemma revealBet_failures_witness :
  revealBet sample_keccak (call_at 10 alice) 7 alice_committed
    = Revert (RevealTooEarly 10 12) /\
  revealBet sample_keccak (call_at 310 alice) 7 alice_committed
    = Revert (RevealTooLate 310 266) /\
  revealBet sample_keccak (call_at 12 alice) 8 alice_committed = Revert InvalidReveal /\
  exec sample_keccak (call_at 12 alice) (Op.RevealBet 8) alice_committed = alice_committed.
Proof.
  pose proof (fun c secret =>
                revealBet_failures sample_keccak c secret alice_committed
                  ltac:(by_evaluation)) as F.
  split; [|split; [|split]].
  - apply (F (call_at 10 alice) 7); by_evaluation.
  - apply (F (call_at 310 alice) 7); by_evaluation.
  - apply (F (call_at 12 alice) 8); by_evaluation.
  - destruct (F (call_at 12 alice) 8 ltac:(by_evaluation) ltac:(by_evaluation))
      as (_ & _ & _ & _ & Hinv & Hkeep).
    apply (Hkeep InvalidReveal). apply Hinv. by_evaluation.
Defined.

(** *** C7 *)

(** A second commit below the minimum stake, above the maximum stake or on a
    paused engine is refused for that reason, not with [PendingBetExists]. *)
Lemma commitBet_second_reports_first_failed_check :
  committed (pendingBet alice_committed alice) = true /\
  commitBet (call_at 11 alice) 1 9865 alice_committed
    = Revert (BetTooSmall 1 500000000000000) /\
  commitBet (call_at 11 alice) (10 * finney) 9865 alice_committed
    = Revert (BetTooLarge 10000000000000000 5000000000000000) /\
  committed (pendingBet alice_committed_paused alice) = true /\
  commitBet (call_at 12 alice) finney 9865 alice_committed_paused
    = Revert EnforcedPause.
Proof. by_evaluation. Qed.

(** Alice's second commit of a valid stake on the running engine. *)
Lemma commitBet_second_fails_witness :
  commitBet (call_at 11 alice) finney 9865 alice_committed = Revert PendingBetExists /\
  exec sample_keccak (call_at 11 alice) (Op.CommitBet finney 9865) alice_committed
    = alice_committed.
Proof.
  destruct (commitBet_second_fails sample_keccak (call_at 11 alice) finney 9865
              alice_committed ltac:(by_evaluation)) as (_ & Hsame & Hpending & _).
  split; [apply Hpending; by_evaluation | exact Hsame].
Defined.

(** *** C8 *)

(** Alice reveals, the owner pauses the engine, Alice reveals again: the
    second reveal fails with [EnforcedPause], not [NoPendingBet]. *)
Lemma revealBet_after_resolve_while_paused :
  call sample_keccak (call_at 12 alice) (Op.RevealBet 7) alice_committed
    = Ok (alice_revealed, [BetRevealed alice finney 0 0]) /\
  paused (exec sample_keccak (call_at 13 house) Op.Pause alice_revealed) = true /\
  revealBet sample_keccak (call_at 14 alice) 7
      (exec sample_keccak (call_at 13 house) Op.Pause alice_revealed)
    = Revert EnforcedPause /\
  revealBet sample_keccak (call_at 14 alice) 7
      (exec sample_keccak (call_at 13 house) Op.Pause alice_revealed)
    <> Revert NoPendingBet.
Proof. by_evaluation. Qed.

(** After Alice's reveal and a quick bet by Bob, neither a refund nor a
    second reveal goes through. *)
Lemma resolve_exactly_once_witness :
  refundExpiredBet (call_at 310 alice)
      (run sample_keccak [(call_at 13 bob, Op.QuickBet finney)] alice_revealed)
    = Revert NoPendingBet /\
  revealBet sample_keccak (call_at 14 alice) 7
      (run sample_keccak [(call_at 13 bob, Op.QuickBet finney)] alice_revealed)
    = Revert NoPendingBet.
Proof.
  destruct (resolve_exactly_once sample_keccak
              (call_at 12 alice) (Op.RevealBet 7) alice_committed alice_revealed
              [BetRevealed alice finney 0 0]
              [(call_at 13 bob, Op.QuickBet finney)] (call_at 14 alice)
              ltac:(left; eexists; reflexivity)
              ltac:(by_evaluation) ltac:(by_evaluation) ltac:(by_evaluation))
    as (_ & _ & Hreveal & _).
  destruct (resolve_exactly_once sample_keccak
              (call_at 12 alice) (Op.RevealBet 7) alice_committed alice_revealed
              [BetRevealed alice finney 0 0]
              [(call_at 13 bob, Op.QuickBet finney)] (call_at 310 alice)
              ltac:(left; eexists; reflexivity)
              ltac:(by_evaluation) ltac:(by_evaluation) ltac:(by_evaluation))
    as (_ & Hrefund & _).
  split; [exact Hrefund|]. rewrite Hreveal. by_evaluation.
Defined.

(** *** C9 *)

(** Bob's quick bet and a funding by the owner next to Alice's open bet. *)
Lemma quickBet_preserves_reserve_witness :
  reserveBalance (exec sample_keccak (call_at 12 bob) (Op.QuickBet finney) alice_committed)
    = reserveBalance alice_committed /\
  reserveBalance (exec sample_keccak (call_at 12 house) (Op.FundHouse finney) alice_committed)
    = reserveBalance alice_committed.
Proof.
  destruct (quickBet_preserves_reserve sample_keccak (call_at 12 bob) finney
              alice_committed) as (Hquick & _).
  destruct (quickBet_preserves_reserve sample_keccak (call_at 12 house) finney
              alice_committed) as (_ & _ & Hother).
  split; [exact Hquick|]. apply Hother. reflexivity.
Defined.

(** *** C10 *)

(** Funding a fresh contract with nothing, and with one finney. *)
Lemma fundHouse_fails_iff_zero_witness :
  fundHouse (call_at 1 house) 0 (deploy house 0)
    = Revert (RequireFailed "Must send CELO") /\
  fundHouse (call_at 1 house) finney (deploy house 0)
    = Ok (set_balance (balance (deploy house 0) + finney) (deploy house 0),
          [GameFunded house finney]).
Proof.
  destruct (fundHouse_fails_iff_zero sample_keccak (call_at 1 house) 0 (deploy house 0))
    as (_ & Hzero & _).
  destruct (fundHouse_fails_iff_zero sample_keccak (call_at 1 house) finney
              (deploy house 0)) as (_ & _ & Hpos).
  split; [apply Hzero; reflexivity | apply Hpos; by_evaluation].
Defined.

(** ** Further properties of the contract *)

Section Coverage.

Variable keccak256 : list abi_word -> bytes32.

(** *** What a call does to the statistics *)

Lemma payout_within_stake (r stake : uint256) :
  snd (resolver_spec r stake) * 100 <= stake * 190.
Proof.
  unfold resolver_spec.
  destruct (r <? 15); [|destruct (r <? 50)]; simpl.
  - rewrite N.mul_comm. apply N.Div0.mul_div_le.
  - pose proof (N.Div0.mul_div_le stake 2). lia.
  - lia.
Qed.

(** The bookkeeping of a game: one more game, the stake wagered, the payout
    won (the winner's counter is written only for a positive payout). *)
Lemma revealBet_stats (c : Call) (secret : bytes32) (s s' : State) (evs : list Event) :
  revealBet keccak256 c secret s = Ok (s', evs) ->
  let bet := pendingBet s (msg_sender c) in
  let r := reveal_random keccak256 secret (blockhash c (commitBlock bet + 1))
             (msg_sender c) (commitBlock bet) in
  let payout := snd (resolver_spec r (amount bet)) in
  totalGamesPlayed s' = totalGamesPlayed s + 1 /\
  totalWagered s' = totalWagered s + amount bet /\
  totalPayouts s' = totalPayouts s + payout /\
  playerGamesPlayed s'
    = <[msg_sender c := counter (playerGamesPlayed s) (msg_sender c) + 1]>
        (playerGamesPlayed s) /\
  playerTotalWagered s'
    = <[msg_sender c := counter (playerTotalWagered s) (msg_sender c) + amount bet]>
        (playerTotalWagered s) /\
  playerTotalWon s'
    = (if 0 <? payout
       then <[msg_sender c := counter (playerTotalWon s) (msg_sender c) + payout]>
              (playerTotalWon s)
       else playerTotalWon s).
Proof.
  intros H. cbv zeta.
  unfold revealBet, whenNotPaused, reveal_outcome, send, add256, sub256, mul256 in H.
  unfold MAX_PAYOUT_MULTIPLIER, MIN_REVEAL_DELAY, REVEAL_TIMEOUT in H.
  unfold reveal_random, resolver_spec.
  break_call H; injection H as <- <-;
    repeat match goal with
    | E : (_ <? 15) = _ |- _ => rewrite E; clear E
    | E : (_ <? 50) = _ |- _ => rewrite E; clear E
    end; simpl;
    try match goal with
        | E : (0 <? _) = _ |- _ => rewrite E
        end; reflect_tests; repeat split; first [reflexivity | lia_quotients].
Qed.

Lemma quickBet_stats (c : Call) (value : uint256) (s s' : State) (evs : list Event) :
  quickBet keccak256 c value s = Ok (s', evs) ->
  let r := quick_random keccak256 c (totalGamesPlayed s) in
  let payout := snd (resolver_spec r value) in
  (evs = [BetRefunded (msg_sender c) value "Insufficient house balance"] /\
   totalGamesPlayed s' = totalGamesPlayed s /\
   totalWagered s' = totalWagered s /\
   totalPayouts s' = totalPayouts s /\
   playerGamesPlayed s' = playerGamesPlayed s /\
   playerTotalWagered s' = playerTotalWagered s /\
   playerTotalWon s' = playerTotalWon s) \/
  (totalGamesPlayed s' = totalGamesPlayed s + 1 /\
   totalWagered s' = totalWagered s + value /\
   totalPayouts s' = totalPayouts s + payout /\
   playerGamesPlayed s'
     = <[msg_sender c := counter (playerGamesPlayed s) (msg_sender c) + 1]>
         (playerGamesPlayed s) /\
   playerTotalWagered s'
     = <[msg_sender c := counter (playerTotalWagered s) (msg_sender c) + value]>
         (playerTotalWagered s) /\
   playerTotalWon s'
     = (if 0 <? payout
        then <[msg_sender c := counter (playerTotalWon s) (msg_sender c) + payout]>
               (playerTotalWon s)
        else playerTotalWon s)).
Proof.
  intros H. cbv zeta.
  unfold quickBet, whenNotPaused, quick_outcome, send, add256, sub256, mul256 in H.
  unfold MAX_PAYOUT_MULTIPLIER in H.
  unfold quick_random, resolver_spec.
  break_call H; injection H as <- <-;
    repeat match goal with
    | E : (_ <? 15) = _ |- _ => rewrite E; clear E
    | E : (_ <? 50) = _ |- _ => rewrite E; clear E
    end; simpl;
    try match goal with
        | E : (0 <? _) = _ |- _ => rewrite E
        end; reflect_tests;
    first [ left; repeat split; reflexivity
          | right; repeat split; first [reflexivity | lia_quotients] ].
Qed.

(** A successful call either leaves the six counters alone or records one
    game of the sender: a stake, and a payout of at most 1.9 times the
    stake.  Only [revealBet] and [quickBet] record games. *)
Lemma call_stats (c : Call) (op : Op.t) (s s' : State) (evs : list Event) :
  call keccak256 c op s = Ok (s', evs) ->
  (totalGamesPlayed s' = totalGamesPlayed s /\
   totalWagered s' = totalWagered s /\
   totalPayouts s' = totalPayouts s /\
   playerGamesPlayed s' = playerGamesPlayed s /\
   playerTotalWagered s' = playerTotalWagered s /\
   playerTotalWon s' = playerTotalWon s) \/
  (exists stake payout,
     payout * 100 <= stake * 190 /\
     ((exists secret, op = Op.RevealBet secret) \/ op = Op.QuickBet stake) /\
     totalGamesPlayed s' = totalGamesPlayed s + 1 /\
     totalWagered s' = totalWagered s + stake /\
     totalPayouts s' = totalPayouts s + payout /\
     playerGamesPlayed s'
       = <[msg_sender c := counter (playerGamesPlayed s) (msg_sender c) + 1]>
           (playerGamesPlayed s) /\
     playerTotalWagered s'
       = <[msg_sender c := counter (playerTotalWagered s) (msg_sender c) + stake]>
           (playerTotalWagered s) /\
     playerTotalWon s'
       = (if 0 <? payout
          then <[msg_sender c := counter (playerTotalWon s) (msg_sender c) + payout]>
                 (playerTotalWon s)
          else playerTotalWon s)).
Proof.
  intros H.
  destruct op as [value hash|secret| |value|value|amount| | | |lo hi|value|newOwner| ];
    simpl in H.
  - unfold commitBet, whenNotPaused, add256, sub256, mul256 in H.
    break_call H. injection H as <- <-. left. repeat split.
  - right. apply revealBet_stats in H. cbv zeta in H.
    eexists _, _. split; [apply payout_within_stake|].
    split; [left; eexists; reflexivity | exact H].
  - unfold refundExpiredBet, send, add256, sub256, mul256 in H.
    break_call H; injection H as <- <-; left; repeat split.
  - apply quickBet_stats in H. cbv zeta in H.
    destruct H as [(_ & H) | H]; [left; exact H | right].
    eexists _, _. split; [apply payout_within_stake|].
    split; [right; reflexivity | exact H].
  - unfold fundHouse, require in H. break_call H. injection H as <- <-.
    left. repeat split.
  - unfold withdrawHouse, onlyOwner, require, send, sub256 in H. break_call H.
    injection H as <- <-. left. repeat split.
  - unfold pause, onlyOwner, whenNotPaused in H. break_call H.
    injection H as <- <-. left. repeat split.
  - unfold unpause, onlyOwner, whenPaused in H. break_call H.
    injection H as <- <-. left. repeat split.
  - unfold emergencyWithdraw, onlyOwner, whenPaused, send in H. break_call H.
    injection H as <- <-. left. repeat split.
  - unfold updateBetLimits, onlyOwner, require in H. break_call H.
    injection H as <- <-. left. repeat split.
  - unfold receive in H. injection H as <- <-. left. repeat split.
  - unfold transferOwnership, onlyOwner in H. break_call H.
    injection H as <- <-. left. repeat split.
  - unfold renounceOwnership, onlyOwner in H. break_call H.
    injection H as <- <-. left. repeat split.
Qed.

(** *** Sums of per-player counters *)

Lemma total_of_fresh (a : address) (v : uint256) (m : gmap N N) :
  m !! a = None -> total_of (<[a:=v]> m) = v + total_of m.
Proof.
  intros Hnone. unfold total_of.
  apply (map_fold_insert_L (fun _ v acc => v + acc)); [|exact Hnone].
  intros. lia.
Qed.

Lemma total_of_insert (a : address) (v : uint256) (m : gmap N N) :
  total_of (<[a:=v]> m) + counter m a = total_of m + v.
Proof.
  unfold counter. destruct (m !! a) as [old|] eqn:Hold; simpl.
  - rewrite <- (insert_delete_eq m a v).
    rewrite <- (insert_delete_id m a old Hold) at 2.
    rewrite !total_of_fresh by apply lookup_delete_eq. lia.
  - rewrite total_of_fresh by exact Hold. lia.
Qed.

(** Adding to a player's counter adds as much to the sum. *)
Lemma total_of_bump (a : address) (d : uint256) (m : gmap N N) :
  total_of (<[a := counter m a + d]> m) = total_of m + d.
Proof. pose proof (total_of_insert a (counter m a + d) m). lia. Qed.

(** *** Players do not touch each other's records *)

Lemma exec_other_player (a : address) (c : Call) (op : Op.t) (s : State) :
  msg_sender c <> a ->
  pendingBet (exec keccak256 c op s) a = pendingBet s a /\
  getPlayerStats (exec keccak256 c op s) a = getPlayerStats s a.
Proof.
  intros Hne. unfold exec, settle.
  destruct (call keccak256 c op s) as [[s' evs]|e] eqn:H; [|split; reflexivity].
  split.
  - apply call_effect in H. unfold pendingBet.
    destruct op; try (destruct H as [-> _]; reflexivity);
      destruct H as (_ & -> & _); now rewrite lookup_insert_ne.
  - unfold getPlayerStats, counter.
    destruct (call_stats _ _ _ _ _ H)
      as [(_ & _ & _ & -> & -> & ->)
         | (stake & payout & _ & _ & _ & _ & _ & -> & -> & ->)];
      [reflexivity|].
    destruct (0 <? payout); now rewrite !lookup_insert_ne.
Qed.

Lemma run_other_players (a : address) (trace : list (Call * Op.t)) (s : State) :
  others_only a trace = true ->
  pendingBet (run keccak256 trace s) a = pendingBet s a /\
  getPlayerStats (run keccak256 trace s) a = getPlayerStats s a.
Proof.
  revert s. induction trace as [|[c op] rest IH]; intros s Hothers.
  - split; reflexivity.
  - unfold others_only in Hothers. simpl in Hothers.
    apply andb_true_iff in Hothers as [Hstep Hrest].
    apply negb_true_iff, N.eqb_neq in Hstep.
    simpl. destruct (IH (exec keccak256 c op s) Hrest) as [-> ->].
    now apply exec_other_player.
Qed.

(** *** Bounds on the slots *)

Lemma commitBet_stake_bounds (c : Call) (value : uint256) (hash : bytes32)
    (s s' : State) (evs : list Event) :
  commitBet c value hash s = Ok (s', evs) -> minBet s <= value <= maxBet s.
Proof.
  intros H. unfold commitBet, whenNotPaused, add256, sub256, mul256 in H.
  break_call H. reflect_tests. simpl in *. lia.
Qed.

(** No slot of a reachable ledger holds a stake above [0.01 ether]. *)
Lemma reachable_slots_fit (s : State) :
  reachable keccak256 s ->
  forall a, amount (pendingBet s a) <= 10000000000000000.
Proof.
  induction 1 as [deployer funds | c op s Hreach IH]; intros a.
  - unfold pendingBet. simpl. rewrite lookup_empty. simpl. lia.
  - unfold exec, settle.
    destruct (call keccak256 c op s) as [[s' evs]|e] eqn:H; [|apply IH].
    pose proof (call_effect keccak256 _ _ _ _ _ H) as Heff.
    pose proof (IH a) as IHa. unfold pendingBet in *.
    destruct op as [value hash|secret| |value|value|amount| | | |lo hi|value|newOwner| ];
      try (destruct Heff as [-> _]; exact IHa);
      destruct Heff as (_ & -> & _);
      (destruct (N.eq_dec (msg_sender c) a) as [->|Hne];
       [rewrite lookup_insert_eq | rewrite lookup_insert_ne by exact Hne; exact IHa]).
    + simpl. simpl in H. apply commitBet_stake_bounds in H.
      pose proof (reachable_limits keccak256 s Hreach). lia.
    + exact IHa.
    + exact IHa.
Qed.

(** The share of one slot is within the sum. *)
Lemma slot_within_open_liability (a : address) (m : gmap N PendingBet) :
  slot_liability (default noBet (m !! a)) <= open_liability m.
Proof.
  destruct (m !! a) as [b|] eqn:Hb; simpl.
  - rewrite <- (insert_delete_id m a b Hb) at 1.
    rewrite open_liability_fresh by apply lookup_delete_eq. lia.
  - unfold slot_liability. simpl. lia.
Qed.

(** *** Invariants of the reachable states *)

(** X1.  In every state reachable from deployment [reserveBalance] is the
    sum of [stake * 190 / 100] over the open bets, so the worst-case payout
    of each open bet is within the reserve and releasing it cannot
    underflow. *)
Theorem reserve_sums_open_bets (s : State) :
  reachable keccak256 s ->
  reserveBalance s = open_liability (pendingBets s) /\
  (forall a, committed (pendingBet s a) = true ->
             worst_case_payout (amount (pendingBet s a)) <= reserveBalance s).
Proof.
  intros Hreach.
  pose proof (reserve_counts_open_bets keccak256 s Hreach) as Hsum.
  split; [exact Hsum|].
  intros a Hopen. rewrite Hsum.
  pose proof (slot_within_open_liability a (pendingBets s)) as Hslot.
  unfold pendingBet in Hopen. unfold slot_liability in Hslot.
  rewrite Hopen in Hslot. exact Hslot.
Qed.

(** X2.  Along any sequence of calls that contains no [commitBet], no
    [quickBet] and no [emergencyWithdraw], a balance that covers the reserve
    keeps covering it: reveals, refunds, fundings and owner withdrawals never
    uncover the reserve. *)
Theorem cover_kept_along (trace : list (Call * Op.t)) (s : State) :
  forallb (fun step => negb (may_uncover_reserve (snd step))) trace = true ->
  reserveBalance s <= balance s ->
  reserveBalance (run keccak256 trace s) <= balance (run keccak256 trace s).
Proof.
  revert s. induction trace as [|[c op] rest IH]; intros s Hsafe Hcover.
  - exact Hcover.
  - simpl in Hsafe. apply andb_true_iff in Hsafe as [Hop Hrest].
    apply negb_true_iff in Hop. simpl. apply IH; [exact Hrest|].
    apply cover_kept; assumption.
Qed.

(** X3.  In every reachable state the bet limits are positive, ordered and
    at most [0.01 ether], and no ledger slot holds a larger stake, so the
    product [stake * 190] of a recorded stake always fits a 256-bit word. *)
Theorem limits_and_stakes_fit (s : State) :
  reachable keccak256 s ->
  0 < minBet s < maxBet s /\
  maxBet s <= 10000000000000000 /\
  (forall a, amount (pendingBet s a) <= 10000000000000000 /\
             amount (pendingBet s a) * MAX_PAYOUT_MULTIPLIER <= MAX_UINT256).
Proof.
  intros Hreach. destruct (reachable_limits keccak256 s Hreach) as [Hord Hcap].
  split; [exact Hord|]. split; [exact Hcap|].
  intros a. pose proof (reachable_slots_fit s Hreach a) as Hfit.
  split; [exact Hfit|].
  unfold MAX_PAYOUT_MULTIPLIER, MAX_UINT256.
  transitivity (10000000000000000 * 190); [|by_evaluation].
  apply N.mul_le_mono_r. exact Hfit.
Qed.

(** X12.  In every reachable state the aggregate statistics are the sums of
    the per-player ones: games played, total wagered and total paid out. *)
Theorem stats_mirror_players (s : State) :
  reachable keccak256 s ->
  totalGamesPlayed s = total_of (playerGamesPlayed s) /\
  totalWagered s = total_of (playerTotalWagered s) /\
  totalPayouts s = total_of (playerTotalWon s).
Proof.
  induction 1 as [deployer funds | c op s Hreach IH].
  - repeat split.
  - unfold exec, settle.
    destruct (call keccak256 c op s) as [[s' evs]|e] eqn:H; [|exact IH].
    destruct IH as (IHg & IHw & IHp).
    destruct (call_stats _ _ _ _ _ H)
      as [(-> & -> & -> & -> & -> & ->)
         | (stake & payout & _ & _ & -> & -> & -> & -> & -> & Hwon)];
      [repeat split; assumption|].
    rewrite !total_of_bump. rewrite Hwon.
    destruct (0 <? payout) eqn:Hp.
    + rewrite total_of_bump. repeat split; lia.
    + apply N.ltb_ge in Hp. repeat split; lia.
Qed.

Lemma counter_insert (a b : address) (v : uint256) (m : gmap N N) :
  counter (<[a:=v]> m) b = if decide (a = b) then v else counter m b.
Proof. unfold counter. rewrite lookup_insert. now destruct (decide (a = b)). Qed.

(** X13.  In every reachable state the house has paid out at most 1.9 times
    what was wagered, in total and to each player. *)
Theorem payouts_within_wagers (s : State) :
  reachable keccak256 s ->
  totalPayouts s * 100 <= totalWagered s * 190 /\
  (forall a, counter (playerTotalWon s) a * 100
             <= counter (playerTotalWagered s) a * 190).
Proof.
  induction 1 as [deployer funds | c op s Hreach IH].
  - split; [by_evaluation|]. intros a. unfold counter. simpl.
    rewrite lookup_empty. simpl. lia.
  - unfold exec, settle.
    destruct (call keccak256 c op s) as [[s' evs]|e] eqn:H; [|exact IH].
    destruct IH as [IHt IHp].
    destruct (call_stats _ _ _ _ _ H)
      as [(_ & -> & -> & _ & -> & ->)
         | (stake & payout & Hle & _ & _ & -> & -> & _ & -> & ->)];
      [split; assumption|].
    split; [lia|]. intros a. specialize (IHp a).
    destruct (0 <? payout) eqn:Hp; rewrite !counter_insert;
      destruct (decide (msg_sender c = a)) as [->|Hne]; lia.
Qed.

(** X14.  The statistics only grow: no call decreases an aggregate counter
    or a counter of any player, and a call that does not record a game
    (every call but a successful [revealBet] or [quickBet]) leaves
    [totalGamesPlayed] as it was. *)
Theorem stats_never_decrease (c : Call) (op : Op.t) (s : State) :
  totalGamesPlayed s <= totalGamesPlayed (exec keccak256 c op s) /\
  totalWagered s <= totalWagered (exec keccak256 c op s) /\
  totalPayouts s <= totalPayouts (exec keccak256 c op s) /\
  (forall a,
     counter (playerGamesPlayed s) a
       <= counter (playerGamesPlayed (exec keccak256 c op s)) a /\
     counter (playerTotalWagered s) a
       <= counter (playerTotalWagered (exec keccak256 c op s)) a /\
     counter (playerTotalWon s) a
       <= counter (playerTotalWon (exec keccak256 c op s)) a) /\
  (match op with
   | Op.RevealBet _ | Op.QuickBet _ => True
   | _ => totalGamesPlayed (exec keccak256 c op s) = totalGamesPlayed s
   end).
Proof.
  unfold exec, settle.
  destruct (call keccak256 c op s) as [[s' evs]|e] eqn:H;
    [|repeat split; try lia; destruct op; auto].
  destruct (call_stats _ _ _ _ _ H)
    as [(-> & -> & -> & -> & -> & ->)
       | (stake & payout & _ & Hop & -> & -> & -> & -> & -> & ->)].
  - repeat split; try lia. destruct op; auto.
  - split; [lia|]. split; [lia|]. split; [lia|]. split.
    + intros a. destruct (0 <? payout); rewrite !counter_insert;
        destruct (decide (msg_sender c = a)) as [->|Hne]; repeat split; lia.
    + destruct Hop as [[secret ->] | ->]; exact I.
Qed.

(** *** The life of a bet *)

(** X5.  A player's ledger slot and statistics are changed only by that
    player's own calls: whatever the other accounts, the owner included, do
    in between, [pendingBets] and the three per-player counters of the player
    stay as they were. *)
Theorem others_leave_player_alone (a : address) (trace : list (Call * Op.t)) (s : State) :
  others_only a trace = true ->
  pendingBet (run keccak256 trace s) a = pendingBet s a /\
  getPlayerStats (run keccak256 trace s) a = getPlayerStats s a.
Proof. apply run_other_players. Qed.

(** X4.  What a bet releases is what it reserved.  After a successful
    [commitBet] of [value] and any calls by other accounts, a successful
    [revealBet] or [refundExpiredBet] by the same player lowers
    [reserveBalance] by exactly the [value * 190 / 100] that the commit had
    added, and closes the slot. *)
Theorem release_matches_reservation
    (c : Call) (value : uint256) (hash : bytes32) (s s1 : State) (evs1 : list Event)
    (trace : list (Call * Op.t)) (c2 : Call) (op2 : Op.t) (s3 : State)
    (evs3 : list Event) :
  commitBet c value hash s = Ok (s1, evs1) ->
  others_only (msg_sender c) trace = true ->
  msg_sender c2 = msg_sender c ->
  (exists secret, op2 = Op.RevealBet secret) \/ op2 = Op.RefundExpiredBet ->
  call keccak256 c2 op2 (run keccak256 trace s1) = Ok (s3, evs3) ->
  reserveBalance s1 = reserveBalance s + worst_case_payout value /\
  reserveBalance s3 + worst_case_payout value
    = reserveBalance (run keccak256 trace s1) /\
  committed (pendingBet s3 (msg_sender c)) = false.
Proof.
  intros Hcommit Hothers Hsame Hop Hcall.
  pose proof (call_effect keccak256 c (Op.CommitBet value hash) s s1 evs1 Hcommit)
    as (_ & Hledger & Hreserve).
  destruct (run_other_players (msg_sender c) trace s1 Hothers) as [Hslot _].
  assert (Hbet : pendingBet (run keccak256 trace s1) (msg_sender c2)
                 = {| amount := value; commitBlock := block_number c;
                      commitHash := hash; resolved := false |}).
  { rewrite Hsame, Hslot. unfold pendingBet.
    rewrite Hledger, lookup_insert_eq. reflexivity. }
  apply call_effect in Hcall.
  assert (Heff : pendingBets s3
                 = <[msg_sender c2 := mark_resolved
                                        (pendingBet (run keccak256 trace s1) (msg_sender c2))]>
                     (pendingBets (run keccak256 trace s1)) /\
                 reserveBalance s3
                 + worst_case_payout
                     (amount (pendingBet (run keccak256 trace s1) (msg_sender c2)))
                 = reserveBalance (run keccak256 trace s1)).
  { destruct Hop as [[secret ->] | ->]; destruct Hcall as (_ & ? & ?); split; assumption. }
  destruct Heff as [Hledger3 Hrelease]. rewrite Hbet in Hrelease, Hledger3.
  split; [exact Hreserve|]. split; [exact Hrelease|].
  unfold pendingBet. rewrite Hledger3, <- Hsame, lookup_insert_eq.
  unfold committed, mark_resolved. simpl. apply andb_false_r.
Qed.

(** X6.  In a reachable state an open bet whose window has passed can always
    be refunded, provided the contract still holds the stake and the player
    accepts the transfer: the call returns exactly the stake, releases the
    worst-case payout and marks the slot resolved, touching nothing else.
    When the contract holds less than the stake or the transfer is refused,
    the call reverts with "Refund failed". *)
Theorem refund_of_expired_bet (c : Call) (s : State) :
  reachable keccak256 s ->
  committed (pendingBet s (msg_sender c)) = true ->
  commitBlock (pendingBet s (msg_sender c)) + REVEAL_TIMEOUT < block_number c ->
  block_number c <= MAX_UINT256 ->
  refundExpiredBet c s =
    if call_succeeds c && (amount (pendingBet s (msg_sender c)) <=? balance s)
    then Ok (set_balance (balance s - amount (pendingBet s (msg_sender c)))
               (set_reserveBalance
                  (reserveBalance s
                   - worst_case_payout (amount (pendingBet s (msg_sender c))))
                  (set_pendingBet (msg_sender c)
                     (mark_resolved (pendingBet s (msg_sender c))) s)),
             [BetRefunded (msg_sender c) (amount (pendingBet s (msg_sender c)))
                "Reveal timeout"])
    else Revert (RequireFailed "Refund failed").
Proof.
  intros Hreach Hopen Hlate Hword.
  pose proof (reachable_slots_fit s Hreach (msg_sender c)) as Hfit.
  pose proof (reserve_counts_open_bets keccak256 s Hreach) as Hsum.
  pose proof (slot_within_open_liability (msg_sender c) (pendingBets s)) as Hslot.
  fold (pendingBet s (msg_sender c)) in Hslot.
  unfold slot_liability in Hslot. rewrite Hopen, <- Hsum in Hslot.
  unfold worst_case_payout, MAX_PAYOUT_MULTIPLIER, REVEAL_TIMEOUT in *.
  unfold refundExpiredBet, add256, sub256, mul256, send, mark_resolved.
  unfold worst_case_payout, MAX_PAYOUT_MULTIPLIER, REVEAL_TIMEOUT.
  cbv zeta. rewrite (committed_found _ Hopen).
  replace (commitBlock (pendingBet s (msg_sender c)) + 256 <=? MAX_UINT256) with true
    by (symmetry; apply N.leb_le; lia).
  unfold mbind at 1. unfold Result_bind at 1.
  replace (block_number c <=? commitBlock (pendingBet s (msg_sender c)) + 256)
    with false by (symmetry; apply N.leb_gt; lia).
  replace (amount (pendingBet s (msg_sender c)) * 190 <=? MAX_UINT256) with true
    by (symmetry; apply N.leb_le; unfold MAX_UINT256;
        transitivity (10000000000000000 * 190);
        [apply N.mul_le_mono_r; exact Hfit | by_evaluation]).
  unfold mbind at 1. unfold Result_bind at 1.
  simpl reserveBalance.
  replace (amount (pendingBet s (msg_sender c)) * 190 / 100 <=? reserveBalance s)
    with true by (symmetry; apply N.leb_le; exact Hslot).
  unfold mbind at 1. unfold Result_bind at 1. simpl balance.
  destruct (call_succeeds c && (amount (pendingBet s (msg_sender c)) <=? balance s));
    reflexivity.
Qed.

(** X7.  A reveal succeeds only for an open bet, on a running engine, inside
    the window, with a secret whose digest with the caller equals the stored
    commitment.  The block whose hash it reads, the one after the commit, is
    then strictly older than the current block and at most 255 blocks behind
    it. *)
Theorem revealBet_sound (c : Call) (secret : bytes32) (s s' : State) (evs : list Event) :
  revealBet keccak256 c secret s = Ok (s', evs) ->
  paused s = false /\
  committed (pendingBet s (msg_sender c)) = true /\
  keccak256 [W256 secret; W160 (msg_sender c)] = commitHash (pendingBet s (msg_sender c)) /\
  commitBlock (pendingBet s (msg_sender c)) + 1 < block_number c /\
  block_number c <= commitBlock (pendingBet s (msg_sender c)) + 1 + 255 /\
  resolved (pendingBet s' (msg_sender c)) = true.
Proof.
  intros H.
  pose proof (call_effect keccak256 c (Op.RevealBet secret) s s' evs H)
    as (Hopen & Hledger & _).
  assert (Hres : resolved (pendingBet s' (msg_sender c)) = true).
  { unfold pendingBet. rewrite Hledger, lookup_insert_eq. reflexivity. }
  unfold revealBet, whenNotPaused, reveal_outcome, send, add256, sub256, mul256 in H.
  unfold MIN_REVEAL_DELAY, REVEAL_TIMEOUT in H.
  break_call H; reflect_tests; repeat split; try assumption; lia.
Qed.

(** X8.  A committed stake is locked in: after a successful [commitBet] at
    height [h] in a reachable state the same player's [revealBet] reverts with [RevealTooEarly]
    at every height up to [h + 1], and [refundExpiredBet] reverts with
    [RevealTooEarly] at every height up to [h + 256]. *)
Theorem lock_after_commit
    (c : Call) (value : uint256) (hash : bytes32) (s s1 : State) (evs : list Event)
    (c2 : Call) :
  reachable keccak256 s ->
  commitBet c value hash s = Ok (s1, evs) ->
  msg_sender c2 = msg_sender c ->
  block_number c + REVEAL_TIMEOUT < MAX_UINT256 ->
  (block_number c2 <= block_number c + 1 ->
     forall secret,
       revealBet keccak256 c2 secret s1
         = Revert (RevealTooEarly (block_number c2) (block_number c + 2))) /\
  (block_number c2 <= block_number c + 256 ->
     refundExpiredBet c2 s1
       = Revert (RevealTooEarly (block_number c2) (block_number c + 257))).
Proof.
  intros Hreach Hcommit Hsame Hword.
  pose proof (call_effect keccak256 c (Op.CommitBet value hash) s s1 evs Hcommit)
    as (_ & Hledger & _).
  pose proof (commitBet_stake_bounds _ _ _ _ _ _ Hcommit) as [Hlo _].
  pose proof (reachable_limits keccak256 s Hreach) as [[Hmin _] _].
  assert (Hbet : pendingBet s1 (msg_sender c2)
                 = {| amount := value; commitBlock := block_number c;
                      commitHash := hash; resolved := false |}).
  { rewrite Hsame. unfold pendingBet. rewrite Hledger, lookup_insert_eq. reflexivity. }
  assert (Hrun : paused s1 = false /\ 0 < value).
  { unfold commitBet, whenNotPaused, add256, sub256, mul256 in Hcommit.
    break_call Hcommit. injection Hcommit as <- <-. reflect_tests. simpl in *.
    split; [assumption|].
    match goal with
    | Hc : (0 <? _) && negb _ = false |- _ => clear Hc
    end.
    lia. }
  destruct Hrun as [Hrun Hpos].
  unfold REVEAL_TIMEOUT in Hword.
  split.
  - intros Hearly secret.
    unfold revealBet, whenNotPaused. rewrite Hrun.
    unfold mbind at 1. unfold Result_bind at 1. cbv zeta. rewrite Hbet. simpl.
    replace (value =? 0) with false by (symmetry; apply N.eqb_neq; lia). simpl.
    unfold add256, MIN_REVEAL_DELAY.
    replace (block_number c + 1 <=? MAX_UINT256) with true
      by (symmetry; apply N.leb_le; lia).
    unfold mbind at 1. unfold Result_bind at 1.
    replace (block_number c2 <=? block_number c + 1) with true
      by (symmetry; apply N.leb_le; lia).
    replace (block_number c + 1 + 1 <=? MAX_UINT256) with true
      by (symmetry; apply N.leb_le; lia).
    unfold mbind, Result_bind. do 2 f_equal. lia.
  - intros Hearly.
    unfold refundExpiredBet. cbv zeta. rewrite Hbet. simpl.
    replace (value =? 0) with false by (symmetry; apply N.eqb_neq; lia). simpl.
    unfold add256, REVEAL_TIMEOUT.
    replace (block_number c + 256 <=? MAX_UINT256) with true
      by (symmetry; apply N.leb_le; lia).
    unfold mbind at 1. unfold Result_bind at 1.
    replace (block_number c2 <=? block_number c + 256) with true
      by (symmetry; apply N.leb_le; lia).
    replace (block_number c + 256 + 1 <=? MAX_UINT256) with true
      by (symmetry; apply N.leb_le; lia).
    unfold mbind, Result_bind. do 2 f_equal. lia.
Qed.

(** *** The views *)

(** The timing check of [refundExpiredBet] on an open bet. *)
Lemma refundExpiredBet_guard (c : Call) (s : State) :
  committed (pendingBet s (msg_sender c)) = true ->
  commitBlock (pendingBet s (msg_sender c)) + REVEAL_TIMEOUT < MAX_UINT256 ->
  forall r, refundExpiredBet c s = r ->
  if block_number c <=? commitBlock (pendingBet s (msg_sender c)) + 256 then
    r = Revert (RevealTooEarly (block_number c)
                  (commitBlock (pendingBet s (msg_sender c)) + 257))
  else
    forall a b, r <> Revert (RevealTooEarly a b).
Proof.
  intros Hopen Hfit r He.
  apply committed_found in Hopen.
  unfold refundExpiredBet, send, add256, sub256, mul256 in He.
  unfold REVEAL_TIMEOUT in *. cbv zeta in He. rewrite Hopen in He.
  break_call He; subst r; reflect_tests.
  all: repeat match goal with
       | |- if ?b then _ else _ => destruct b eqn:?; reflect_tests
       end.
  all: try lia.
  all: try (intros a b; discriminate).
  all: try (do 2 f_equal; lia).
Qed.

(** X9.  For an open bet on a running engine the two flags of
    [getPendingBet] tell what the calls will do: [canReveal] holds exactly
    when [revealBet] would not be refused for its timing (neither
    [RevealTooEarly] nor [RevealTooLate]), [canRefund] holds exactly when
    [refundExpiredBet] would not be refused with [RevealTooEarly], and the two
    flags never hold together. *)
Theorem getPendingBet_flags (c : Call) (secret : bytes32) (s : State) :
  paused s = false ->
  committed (pendingBet s (msg_sender c)) = true ->
  commitBlock (pendingBet s (msg_sender c)) + REVEAL_TIMEOUT < MAX_UINT256 ->
  exists canReveal canRefund,
    getPendingBet c s (msg_sender c)
      = Ok (amount (pendingBet s (msg_sender c)),
            commitBlock (pendingBet s (msg_sender c)),
            canReveal, canRefund, false) /\
    (canReveal = true <->
       forall a b,
         revealBet keccak256 c secret s <> Revert (RevealTooEarly a b) /\
         revealBet keccak256 c secret s <> Revert (RevealTooLate a b)) /\
    (canRefund = true <->
       forall a b, refundExpiredBet c s <> Revert (RevealTooEarly a b)) /\
    canReveal && canRefund = false.
Proof.
  intros Hrun Hopen Hfit.
  assert (Hfit' : commitBlock (pendingBet s (msg_sender c)) + REVEAL_TIMEOUT
                  <= MAX_UINT256) by lia.
  pose proof (revealBet_guards keccak256 c secret s Hrun Hopen Hfit' _ eq_refl) as G.
  pose proof (refundExpiredBet_guard c s Hopen Hfit _ eq_refl) as R.
  assert (Hres : resolved (pendingBet s (msg_sender c)) = false).
  { unfold committed in Hopen. apply andb_true_iff in Hopen as [_ Hr].
    now apply negb_true_iff in Hr. }
  unfold REVEAL_TIMEOUT in *.
  exists ((commitBlock (pendingBet s (msg_sender c)) + 1 <? block_number c)
          && (block_number c <=? commitBlock (pendingBet s (msg_sender c)) + 256)),
         (commitBlock (pendingBet s (msg_sender c)) + 256 <? block_number c).
  split.
  { unfold getPendingBet, add256, MIN_REVEAL_DELAY, REVEAL_TIMEOUT. cbv zeta.
    replace (commitBlock (pendingBet s (msg_sender c)) + 1 <=? MAX_UINT256) with true
      by (symmetry; apply N.leb_le; lia).
    replace (commitBlock (pendingBet s (msg_sender c)) + 256 <=? MAX_UINT256) with true
      by (symmetry; apply N.leb_le; lia).
    unfold mbind, Result_bind. rewrite Hres.
    destruct (commitBlock (pendingBet s (msg_sender c)) + 1 <? block_number c);
      reflexivity. }
  destruct (block_number c <=? commitBlock (pendingBet s (msg_sender c)) + 1) eqn:E1;
    destruct (commitBlock (pendingBet s (msg_sender c)) + 256 <? block_number c) eqn:E2;
    destruct (block_number c <=? commitBlock (pendingBet s (msg_sender c)) + 256) eqn:E3;
    destruct (commitBlock (pendingBet s (msg_sender c)) + 1 <? block_number c) eqn:E4;
    reflect_tests; try (exfalso; lia); simpl.
  - (* too early for both *)
    split; [|split; [|reflexivity]]; (split; [discriminate|]); intros Hn; exfalso.
    + destruct (Hn (block_number c)
                  (commitBlock (pendingBet s (msg_sender c)) + 2)) as [Hx _].
      apply Hx. exact G.
    + apply (Hn (block_number c) (commitBlock (pendingBet s (msg_sender c)) + 257)).
      exact R.
  - (* past the window *)
    split; [|split; [|reflexivity]].
    + split; [discriminate|]. intros Hn. exfalso.
      destruct (Hn (block_number c)
                  (commitBlock (pendingBet s (msg_sender c)) + 256)) as [_ Hx].
      apply Hx. exact G.
    + split; [intros _; exact R | reflexivity].
  - (* inside the window *)
    split; [|split; [|reflexivity]].
    + split; [|reflexivity]. intros _ a b.
      destruct (keccak256 [W256 secret; W160 (msg_sender c)]
                  =? commitHash (pendingBet s (msg_sender c))).
      * split; intros He; destruct (G _ He); discriminate.
      * rewrite G. split; discriminate.
    + split; [discriminate|]. intros Hn. exfalso.
      apply (Hn (block_number c) (commitBlock (pendingBet s (msg_sender c)) + 257)).
      exact R.
Qed.

(** X10.  The flags of [getPendingBet] are computed from the heights alone.
    For a slot that holds no open bet (never used, or already resolved) the
    view still reports [canRefund] once the height has passed
    [commitBlock + 256], while [refundExpiredBet] reverts with
    [NoPendingBet]. *)
Theorem getPendingBet_on_closed_slot (c : Call) (s : State) :
  committed (pendingBet s (msg_sender c)) = false ->
  commitBlock (pendingBet s (msg_sender c)) + REVEAL_TIMEOUT < block_number c ->
  block_number c <= MAX_UINT256 ->
  getPendingBet c s (msg_sender c)
    = Ok (amount (pendingBet s (msg_sender c)),
          commitBlock (pendingBet s (msg_sender c)),
          false, true, resolved (pendingBet s (msg_sender c))) /\
  refundExpiredBet c s = Revert NoPendingBet /\
  exec keccak256 c Op.RefundExpiredBet s = s.
Proof.
  intros Hclosed Hlate Hword. unfold REVEAL_TIMEOUT in *.
  assert (Hnone : (amount (pendingBet s (msg_sender c)) =? 0)
                  || resolved (pendingBet s (msg_sender c)) = true).
  { unfold committed in Hclosed. apply andb_false_iff in Hclosed as [Ha | Hr].
    - apply N.ltb_ge in Ha. apply orb_true_iff. left. apply N.eqb_eq. lia.
    - apply negb_false_iff in Hr. rewrite Hr. apply orb_true_r. }
  assert (Hrefund : refundExpiredBet c s = Revert NoPendingBet).
  { unfold refundExpiredBet. cbv zeta. now rewrite Hnone. }
  split; [|split; [exact Hrefund | unfold exec, settle, call; now rewrite Hrefund]].
  unfold getPendingBet, add256, MIN_REVEAL_DELAY, REVEAL_TIMEOUT. cbv zeta.
  replace (commitBlock (pendingBet s (msg_sender c)) + 1 <=? MAX_UINT256) with true
    by (symmetry; apply N.leb_le; lia).
  replace (commitBlock (pendingBet s (msg_sender c)) + 256 <=? MAX_UINT256) with true
    by (symmetry; apply N.leb_le; lia).
  unfold mbind, Result_bind.
  replace (commitBlock (pendingBet s (msg_sender c)) + 1 <? block_number c) with true
    by (symmetry; apply N.ltb_lt; lia).
  replace (block_number c <=? commitBlock (pendingBet s (msg_sender c)) + 256) with false
    by (symmetry; apply N.leb_gt; lia).
  replace (commitBlock (pendingBet s (msg_sender c)) + 256 <? block_number c) with true
    by (symmetry; apply N.ltb_lt; lia).
  reflexivity.
Qed.

(** X11.  [getHouseBalance] and [withdrawHouse] agree while the balance
    covers the reserve: the reported available amount plus the reserve is the
    balance, and the owner's withdrawal succeeds exactly for amounts up to
    the available amount whose transfer is accepted.  When the reserve
    exceeds the balance the view reports zero available, but every
    [withdrawHouse] by the owner, of zero included, reverts on the unchecked
    difference with an arithmetic panic. *)
Theorem withdrawHouse_matches_available (c : Call) (amount : uint256) (s : State) :
  msg_sender c = owner s ->
  fst (fst (getHouseBalance s)) = balance s /\
  snd (getHouseBalance s) = reserveBalance s /\
  (reserveBalance s <= balance s ->
     snd (fst (getHouseBalance s)) + reserveBalance s = balance s /\
     ((exists s' evs, withdrawHouse c amount s = Ok (s', evs))
        <-> amount <= snd (fst (getHouseBalance s)) /\ call_succeeds c = true)) /\
  (balance s < reserveBalance s ->
     snd (fst (getHouseBalance s)) = 0 /\
     withdrawHouse c amount s = Revert ArithmeticPanic).
Proof.
  intros Howner. unfold getHouseBalance. cbv zeta. simpl.
  split; [reflexivity|]. split; [reflexivity|]. split.
  - intros Hcover.
    assert (Havail : (if reserveBalance s <? balance s
                      then balance s - reserveBalance s else 0)
                     = balance s - reserveBalance s).
    { destruct (reserveBalance s <? balance s) eqn:E; reflect_tests; lia. }
    rewrite Havail. split; [lia|].
    unfold withdrawHouse, onlyOwner, require, send, sub256.
    rewrite Howner, N.eqb_refl.
    replace (reserveBalance s <=? balance s) with true
      by (symmetry; apply N.leb_le; exact Hcover).
    unfold mbind, Result_bind.
    destruct (amount <=? balance s - reserveBalance s) eqn:E1;
      destruct (call_succeeds c) eqn:E2; simpl;
      try (destruct (amount <=? balance s) eqn:E3); reflect_tests;
      (split; [intros (s' & evs & [=]) | intros [? ?]]);
      try discriminate; try lia; eauto.
  - intros Hshort. split.
    + replace (reserveBalance s <? balance s) with false
        by (symmetry; apply N.ltb_ge; lia).
      reflexivity.
    + unfold withdrawHouse, onlyOwner, sub256. rewrite Howner, N.eqb_refl.
      unfold mbind, Result_bind.
      replace (reserveBalance s <=? balance s) with false
        by (symmetry; apply N.leb_gt; exact Hshort).
      reflexivity.
Qed.

(** X15.  After a successful reveal the statistics reported for the player
    are the earlier ones with one more game, the stake added to the amount
    wagered and the payout of the emitted event added to the amount won;
    the statistics of every other player are unchanged. *)
Theorem getPlayerStats_after_reveal
    (c : Call) (secret : bytes32) (s s' : State) (evs : list Event) :
  revealBet keccak256 c secret s = Ok (s', evs) ->
  exists result payout,
    evs = [BetRevealed (msg_sender c) (amount (pendingBet s (msg_sender c)))
             result payout] /\
    getPlayerStats s' (msg_sender c)
      = (fst (fst (getPlayerStats s (msg_sender c))) + 1,
         snd (fst (getPlayerStats s (msg_sender c))) + payout,
         snd (getPlayerStats s (msg_sender c))
         + amount (pendingBet s (msg_sender c))) /\
    (forall other, other <> msg_sender c ->
                   getPlayerStats s' other = getPlayerStats s other).
Proof.
  intros H.
  destruct (revealBet_outcome keccak256 c secret s s' evs H) as (_ & Hev & _).
  pose proof (revealBet_stats c secret s s' evs H) as Hst. cbv zeta in Hst.
  destruct Hst as (_ & _ & _ & Hg & Hw & Hwon).
  eexists _, _. split; [exact Hev|].
  unfold getPlayerStats. rewrite Hg, Hw, Hwon. simpl. split.
  - destruct (0 <? _) eqn:Hp; rewrite !counter_insert;
      destruct (decide (msg_sender c = msg_sender c)) as [_|Hne];
      try contradiction; repeat f_equal.
    apply N.ltb_ge in Hp. lia.
  - intros other Hne.
    destruct (0 <? _); rewrite !counter_insert;
      destruct (decide (msg_sender c = other)) as [Heq|_];
      try (symmetry in Heq; contradiction); reflexivity.
Qed.

(** *** Administration *)

(** X16.  Every owner-only entry point ([withdrawHouse], [pause],
    [unpause], [emergencyWithdraw], [updateBetLimits] and the two inherited
    ownership calls) called by any other account reverts with
    [OwnableUnauthorizedAccount] before anything else is looked at, and
    changes nothing. *)
Theorem owner_only_calls (c : Call) (op : Op.t) (s : State) :
  owner_only op = true ->
  msg_sender c <> owner s ->
  call keccak256 c op s = Revert (OwnableUnauthorizedAccount (msg_sender c)) /\
  exec keccak256 c op s = s.
Proof.
  intros Hop Hne.
  assert (Hgate : onlyOwner c s = Revert (OwnableUnauthorizedAccount (msg_sender c))).
  { unfold onlyOwner.
    replace (owner s =? msg_sender c) with false
      by (symmetry; apply N.eqb_neq; congruence).
    reflexivity. }
  assert (H : call keccak256 c op s
              = Revert (OwnableUnauthorizedAccount (msg_sender c))).
  { destruct op; try discriminate Hop; simpl;
      unfold withdrawHouse, pause, unpause, emergencyWithdraw, updateBetLimits,
        transferOwnership, renounceOwnership;
      rewrite Hgate; reflexivity. }
  split; [exact H|]. unfold exec, settle. now rewrite H.
Qed.

Lemma set_paused_same (s : State) : set_paused (paused s) s = s.
Proof. destruct s; reflexivity. Qed.

(** X17.  Pausing and unpausing is lossless: when the owner pauses a running
    engine and later unpauses it, with no call in between, the state is
    exactly the one before the pause.  Pausing a paused engine reverts with
    [EnforcedPause] and unpausing a running one with [ExpectedPause]. *)
Theorem pause_unpause_round_trip (c1 c2 : Call) (s : State) :
  msg_sender c1 = owner s ->
  msg_sender c2 = owner s ->
  (paused s = false ->
     paused (exec keccak256 c1 Op.Pause s) = true /\
     run keccak256 [(c1, Op.Pause); (c2, Op.Unpause)] s = s /\
     unpause c2 s = Revert ExpectedPause) /\
  (paused s = true ->
     paused (exec keccak256 c2 Op.Unpause s) = false /\
     run keccak256 [(c2, Op.Unpause); (c1, Op.Pause)] s = s /\
     pause c1 s = Revert EnforcedPause).
Proof.
  intros H1 H2.
  split; intros Hp; simpl; unfold exec, settle, call, pause, unpause, onlyOwner,
    whenNotPaused, whenPaused; simpl; rewrite ?H1, ?H2, ?N.eqb_refl, ?Hp; simpl;
    rewrite ?H1, ?H2, ?N.eqb_refl; simpl;
    (split; [reflexivity|]); (split; [|reflexivity]);
    rewrite <- Hp at 1.
  - destruct s; reflexivity.
  - destruct s; reflexivity.
Qed.

Lemma credit_then_return (value : uint256) (s : State) :
  set_balance (balance (credit value s) - value) (credit value s) = s.
Proof. destruct s; unfold credit, set_balance; simpl. f_equal. lia. Qed.

(** X18.  A quick bet that the house cannot cover costs nothing.  On a
    running engine, for a stake within the limits, when the balance before
    the call is below [stake * 190 / 100], [quickBet] hands the stake back
    and leaves the whole state, statistics included, exactly as it was,
    emitting [BetRefunded]; if the caller refuses the transfer the call
    reverts with "Refund failed". *)
Theorem quickBet_refund_is_neutral (c : Call) (value : uint256) (s : State) :
  paused s = false ->
  minBet s <= value <= maxBet s ->
  value * MAX_PAYOUT_MULTIPLIER <= MAX_UINT256 ->
  balance s < worst_case_payout value ->
  quickBet keccak256 c value s =
    (if call_succeeds c
     then Ok (s, [BetRefunded (msg_sender c) value "Insufficient house balance"])
     else Revert (RequireFailed "Refund failed")) /\
  exec keccak256 c (Op.QuickBet value) s = s.
Proof.
  intros Hrun [Hlo Hhi] Hfit Hshort.
  assert (H : quickBet keccak256 c value s =
              if call_succeeds c
              then Ok (s, [BetRefunded (msg_sender c) value "Insufficient house balance"])
              else Revert (RequireFailed "Refund failed")).
  { unfold quickBet, whenNotPaused, mul256, sub256, send. cbv zeta.
    change (paused (credit value s)) with (paused s). rewrite Hrun.
    change (minBet (credit value s)) with (minBet s).
    change (maxBet (credit value s)) with (maxBet s).
    unfold mbind at 1. unfold Result_bind at 1.
    replace (value <? minBet s) with false by (symmetry; apply N.ltb_ge; lia).
    replace (maxBet s <? value) with false by (symmetry; apply N.ltb_ge; lia).
    replace (value * MAX_PAYOUT_MULTIPLIER <=? MAX_UINT256) with true
      by (symmetry; apply N.leb_le; exact Hfit).
    unfold mbind at 1. unfold Result_bind at 1.
    replace (value <=? balance (credit value s)) with true
      by (symmetry; apply N.leb_le; unfold credit; simpl; lia).
    unfold mbind at 1. unfold Result_bind at 1.
    replace (balance (credit value s) - value
             <? value * MAX_PAYOUT_MULTIPLIER / 100) with true
      by (symmetry; apply N.ltb_lt; unfold credit, worst_case_payout in *; simpl; lia).
    replace (value <=? balance (credit value s)) with true
      by (symmetry; apply N.leb_le; unfold credit; simpl; lia).
    destruct (call_succeeds c); [|reflexivity].
    unfold mbind, Result_bind. cbn [andb].
    rewrite credit_then_return. reflexivity. }
  split; [exact H|].
  unfold exec, settle, call. rewrite H. destruct (call_succeeds c); reflexivity.
Qed.

(** X19.  Changing the bet limits never touches a bet that is already
    placed: [revealBet] and [refundExpiredBet] do not read the limits, so
    after any change of [minBet] and [maxBet] they give the same result, with
    the new limits carried along in the state. *)
Theorem bet_limits_do_not_touch_open_bets (c : Call) (lo hi : uint256) (s : State) :
  (forall secret,
     revealBet keccak256 c secret (set_betLimits lo hi s)
       = match revealBet keccak256 c secret s with
         | Ok (s', evs) => Ok (set_betLimits lo hi s', evs)
         | Revert e => Revert e
         end) /\
  refundExpiredBet c (set_betLimits lo hi s)
    = match refundExpiredBet c s with
      | Ok (s', evs) => Ok (set_betLimits lo hi s', evs)
      | Revert e => Revert e
      end.
Proof.
  split; [intros secret|].
  - unfold revealBet, whenNotPaused, reveal_outcome, pendingBet, send,
      add256, sub256, mul256.
    unfold mbind, Result_bind. simpl.
    repeat match goal with
    | |- context [if ?b then _ else _] =>
        lazymatch b with
        | context [if _ then _ else _] => fail
        | _ => destruct b eqn:?; simpl
        end
    end; reflexivity.
  - unfold refundExpiredBet, pendingBet, send, add256, sub256, mul256.
    unfold mbind, Result_bind. simpl.
    repeat match goal with
    | |- context [if ?b then _ else _] =>
        lazymatch b with
        | context [if _ then _ else _] => fail
        | _ => destruct b eqn:?; simpl
        end
    end; reflexivity.
Qed.

(** X20.  While the balance covers the reserve, no bet is left unpaid for
    lack of funds: if the player accepts the transfer, neither [revealBet]
    nor [refundExpiredBet] reverts on its transfer ("Payout failed",
    "Refund failed"). *)
Theorem covered_bets_are_paid (c : Call) (s : State) :
  reserveBalance s <= balance s ->
  call_succeeds c = true ->
  (forall secret,
     revealBet keccak256 c secret s <> Revert (RequireFailed "Payout failed")) /\
  refundExpiredBet c s <> Revert (RequireFailed "Refund failed").
Proof.
  intros Hcover Haccept.
  pose proof (half_le_worst_case (amount (pendingBet s (msg_sender c)))) as Hhalf.
  pose proof (stake_le_worst_case (amount (pendingBet s (msg_sender c)))) as Hfull.
  split; [intros secret|]; intros H.
  - unfold revealBet, whenNotPaused, reveal_outcome, send, add256, sub256, mul256 in H.
    unfold MAX_PAYOUT_MULTIPLIER in H. rewrite Haccept in H.
    break_call H; reflect_tests; simpl in *; lia_quotients.
  - unfold refundExpiredBet, send, add256, sub256, mul256 in H.
    unfold MAX_PAYOUT_MULTIPLIER in H. rewrite Haccept in H.
    break_call H; reflect_tests; simpl in *; lia_quotients.
Qed.

(** X21.  [updateBetLimits] called by the owner succeeds exactly when
    [0 < min < max <= 0.01 ether]; it then stores both limits, emits
    [ConfigUpdated] and changes nothing else, whether or not the engine is
    paused or bets are open.  Otherwise it reverts with the message of the
    first requirement that fails. *)
Theorem updateBetLimits_by_owner (c : Call) (lo hi : uint256) (s : State) :
  msg_sender c = owner s ->
  (0 < lo < hi /\ hi <= 10000000000000000 ->
     updateBetLimits c lo hi s = Ok (set_betLimits lo hi s, [ConfigUpdated lo hi])) /\
  (lo = 0 ->
     updateBetLimits c lo hi s = Revert (RequireFailed "Min bet must be positive")) /\
  (0 < lo -> hi <= lo ->
     updateBetLimits c lo hi s = Revert (RequireFailed "Invalid bet range")) /\
  (0 < lo < hi -> 10000000000000000 < hi ->
     updateBetLimits c lo hi s = Revert (RequireFailed "Max bet too high")) /\
  ((exists s' evs, updateBetLimits c lo hi s = Ok (s', evs))
     <-> 0 < lo < hi /\ hi <= 10000000000000000).
Proof.
  intros Howner. unfold updateBetLimits, onlyOwner, require.
  rewrite Howner, N.eqb_refl. unfold mbind, Result_bind.
  destruct (0 <? lo) eqn:E1; destruct (lo <? hi) eqn:E2;
    destruct (hi <=? 10000000000000000) eqn:E3; reflect_tests.
  all: split; [intros [[? ?] ?]; first [reflexivity | exfalso; lia]|].
  all: split; [intros ?; first [reflexivity | exfalso; lia]|].
  all: split; [intros ? ?; first [reflexivity | exfalso; lia]|].
  all: split; [intros [? ?] ?; first [reflexivity | exfalso; lia]|].
  all: split; [intros (s' & evs & [=]) | intros [[? ?] ?]];
    first [do 2 eexists; reflexivity | exfalso; lia | lia].
Qed.

(** X22.  Sending currency to the contract directly is the same as
    funding the house: for a positive value [receive] does exactly what
    [fundHouse] does.  It differs at zero only, which [receive] accepts
    (emitting [GameFunded] with amount zero) and [fundHouse] rejects. *)
Theorem receive_is_fundHouse (c : Call) (value : uint256) (s : State) :
  (0 < value -> receive c value s = fundHouse c value s) /\
  (value = 0 ->
     exists s', receive c value s = Ok (s', [GameFunded (msg_sender c) 0]) /\
                balance s' = balance s /\
                fundHouse c value s = Revert (RequireFailed "Must send CELO")).
Proof.
  unfold receive, fundHouse, require. split.
  - intros Hpos.
    replace (0 <? value) with true by (symmetry; apply N.ltb_lt; exact Hpos).
    reflexivity.
  - intros ->. eexists. split; [reflexivity|]. split; [simpl; lia | reflexivity].
Qed.

End Coverage.

(** ** The further properties on concrete inputs *)

Lemma funded_reachable : reachable sample_keccak funded.
Proof. unfold funded. apply reachable_run. constructor. Qed.

Lemma alice_committed_reachable : reachable sample_keccak alice_committed.
Proof. unfold alice_committed. constructor. apply funded_reachable. Qed.

Lemma bob_quick_win_reachable : reachable sample_keccak bob_quick_win.
Proof. unfold bob_quick_win. constructor. apply alice_committed_reachable. Qed.

(** With Alice's bet open the reserve is her worst-case payout. *)
Lemma reserve_sums_open_bets_witness :
  reserveBalance alice_committed = open_liability (pendingBets alice_committed) /\
  worst_case_payout (amount (pendingBet alice_committed alice))
    <= reserveBalance alice_committed.
Proof.
  destruct (reserve_sums_open_bets sample_keccak alice_committed
              alice_committed_reachable) as [Hsum Hslot].
  split; [exact Hsum | apply Hslot; by_evaluation].
Defined.

(** Alice reveals and the owner withdraws the free finney. *)
Lemma cover_kept_along_witness :
  reserveBalance
    (run sample_keccak [(call_at 12 alice, Op.RevealBet 7);
                        (call_at 13 house, Op.WithdrawHouse finney)] alice_committed)
  <= balance
       (run sample_keccak [(call_at 12 alice, Op.RevealBet 7);
                           (call_at 13 house, Op.WithdrawHouse finney)] alice_committed).
Proof.
  apply (cover_kept_along sample_keccak
           [(call_at 12 alice, Op.RevealBet 7);
            (call_at 13 house, Op.WithdrawHouse finney)] alice_committed);
    by_evaluation.
Defined.

Lemma limits_and_stakes_fit_witness :
  0 < minBet alice_committed < maxBet alice_committed /\
  amount (pendingBet alice_committed alice) <= 10000000000000000.
Proof.
  destruct (limits_and_stakes_fit sample_keccak alice_committed
              alice_committed_reachable) as (Hord & _ & Hslots).
  split; [exact Hord | apply Hslots].
Defined.

(** Alice commits, Bob plays a quick bet, Alice reveals. *)
Lemma release_matches_reservation_witness :
  reserveBalance alice_committed = reserveBalance funded + worst_case_payout finney /\
  reserveBalance
    (exec sample_keccak (call_at 12 alice) (Op.RevealBet 7)
       (run sample_keccak bob_between alice_committed))
  + worst_case_payout finney
  = reserveBalance (run sample_keccak bob_between alice_committed).
Proof.
  destruct (release_matches_reservation sample_keccak
              (call_at 10 alice) finney 9865 funded alice_committed
              [BetCommitted alice finney 9865]
              bob_between (call_at 12 alice) (Op.RevealBet 7)
              (exec sample_keccak (call_at 12 alice) (Op.RevealBet 7)
                 (run sample_keccak bob_between alice_committed))
              [BetRevealed alice finney 0 0]
              ltac:(by_evaluation) ltac:(by_evaluation) ltac:(by_evaluation)
              ltac:(left; eexists; reflexivity) ltac:(by_evaluation))
    as (Hres & Hrel & _).
  split; [exact Hres | exact Hrel].
Defined.

Lemma others_leave_player_alone_witness :
  pendingBet (run sample_keccak bob_between alice_committed) alice
    = pendingBet alice_committed alice /\
  getPlayerStats (run sample_keccak bob_between alice_committed) alice
    = getPlayerStats alice_committed alice.
Proof.
  apply (others_leave_player_alone sample_keccak alice bob_between alice_committed).
  by_evaluation.
Defined.

(** Alice's refund at block 310. *)
Lemma refund_of_expired_bet_witness :
  exists s',
    refundExpiredBet (call_at 310 alice) alice_committed
      = Ok (s', [BetRefunded alice finney "Reveal timeout"]) /\
    balance s' = balance alice_committed - finney.
Proof.
  pose proof (refund_of_expired_bet sample_keccak (call_at 310 alice) alice_committed
                alice_committed_reachable
                ltac:(by_evaluation) ltac:(by_evaluation) ltac:(by_evaluation)) as H.
  eexists. split.
  - rewrite H. vm_compute. reflexivity.
  - by_evaluation.
Defined.

Lemma revealBet_sound_witness :
  sample_keccak [W256 7; W160 alice] = commitHash (pendingBet alice_committed alice) /\
  commitBlock (pendingBet alice_committed alice) + 1 < 12.
Proof.
  destruct (revealBet_sound sample_keccak (call_at 12 alice) 7 alice_committed
              alice_revealed [BetRevealed alice finney 0 0] ltac:(by_evaluation))
    as (_ & _ & Hdigest & Hlow & _).
  split; [exact Hdigest | exact Hlow].
Defined.

Lemma lock_after_commit_witness :
  revealBet sample_keccak (call_at 11 alice) 7 alice_committed
    = Revert (RevealTooEarly 11 12) /\
  refundExpiredBet (call_at 266 alice) alice_committed
    = Revert (RevealTooEarly 266 267).
Proof.
  destruct (lock_after_commit sample_keccak (call_at 10 alice) finney 9865 funded
              alice_committed [BetCommitted alice finney 9865] (call_at 11 alice)
              funded_reachable ltac:(by_evaluation) ltac:(by_evaluation)
              ltac:(by_evaluation)) as [Hreveal _].
  destruct (lock_after_commit sample_keccak (call_at 10 alice) finney 9865 funded
              alice_committed [BetCommitted alice finney 9865] (call_at 266 alice)
              funded_reachable ltac:(by_evaluation) ltac:(by_evaluation)
              ltac:(by_evaluation)) as [_ Hrefund].
  split; [apply Hreveal | apply Hrefund]; by_evaluation.
Defined.

Lemma getPendingBet_flags_witness :
  exists canReveal canRefund,
    getPendingBet (call_at 12 alice) alice_committed alice
      = Ok (finney, 10, canReveal, canRefund, false) /\
    canReveal && canRefund = false.
Proof.
  destruct (getPendingBet_flags sample_keccak (call_at 12 alice) 7 alice_committed
              ltac:(by_evaluation) ltac:(by_evaluation) ltac:(by_evaluation))
    as (canReveal & canRefund & Hview & _ & _ & Hexcl).
  exists canReveal, canRefund. split; [exact Hview | exact Hexcl].
Defined.

(** Alice never bet on the funded house: at block 300 the view reports
    [canRefund] and the refund is refused. *)
Lemma getPendingBet_on_closed_slot_witness :
  getPendingBet (call_at 300 alice) funded alice = Ok (0, 0, false, true, false) /\
  refundExpiredBet (call_at 300 alice) funded = Revert NoPendingBet.
Proof.
  destruct (getPendingBet_on_closed_slot sample_keccak (call_at 300 alice) funded
              ltac:(by_evaluation) ltac:(by_evaluation) ltac:(by_evaluation))
    as (Hview & Hrefund & _).
  split; [exact Hview | exact Hrefund].
Defined.

(** One finney is free next to Alice's bet; after the three commits nothing
    is, and the owner's withdrawal of nothing panics. *)
Lemma withdrawHouse_matches_available_witness :
  (exists s' evs, withdrawHouse (call_at 13 house) finney alice_committed = Ok (s', evs)) /\
  snd (fst (getHouseBalance overcommitted)) = 0 /\
  withdrawHouse (call_at 20 house) 0 overcommitted = Revert ArithmeticPanic.
Proof.
  destruct (withdrawHouse_matches_available (call_at 13 house) finney
              alice_committed ltac:(by_evaluation)) as (_ & _ & Hcov & _).
  destruct (withdrawHouse_matches_available (call_at 20 house) 0
              overcommitted ltac:(by_evaluation)) as (_ & _ & _ & Hshort).
  split.
  - apply (Hcov ltac:(by_evaluation)). by_evaluation.
  - apply Hshort. by_evaluation.
Defined.

Lemma stats_mirror_players_witness :
  totalGamesPlayed bob_quick_win = total_of (playerGamesPlayed bob_quick_win) /\
  totalPayouts bob_quick_win = total_of (playerTotalWon bob_quick_win).
Proof.
  destruct (stats_mirror_players sample_keccak bob_quick_win bob_quick_win_reachable)
    as (Hg & _ & Hp).
  split; [exact Hg | exact Hp].
Defined.

Lemma payouts_within_wagers_witness :
  totalPayouts bob_quick_win * 100 <= totalWagered bob_quick_win * 190 /\
  counter (playerTotalWon bob_quick_win) bob * 100
    <= counter (playerTotalWagered bob_quick_win) bob * 190.
Proof.
  destruct (payouts_within_wagers sample_keccak bob_quick_win bob_quick_win_reachable)
    as [Ht Hp].
  split; [exact Ht | apply Hp].
Defined.

Lemma getPlayerStats_after_reveal_witness :
  exists result payout,
    getPlayerStats alice_revealed alice
      = (fst (fst (getPlayerStats alice_committed alice)) + 1,
         snd (fst (getPlayerStats alice_committed alice)) + payout,
         snd (getPlayerStats alice_committed alice) + finney) /\
    [BetRevealed alice finney 0 0] = [BetRevealed alice finney result payout].
Proof.
  destruct (getPlayerStats_after_reveal sample_keccak (call_at 12 alice) 7
              alice_committed alice_revealed [BetRevealed alice finney 0 0]
              ltac:(by_evaluation))
    as (result & payout & Hev & Hstats & _).
  exists result, payout. split; [exact Hstats | exact Hev].
Defined.

(** Bob is not the owner. *)
Lemma owner_only_calls_witness :
  call sample_keccak (call_at 12 bob) Op.EmergencyWithdraw alice_committed_paused
    = Revert (OwnableUnauthorizedAccount bob) /\
  call sample_keccak (call_at 12 bob) (Op.WithdrawHouse 1) alice_committed
    = Revert (OwnableUnauthorizedAccount bob).
Proof.
  split.
  - apply (owner_only_calls sample_keccak (call_at 12 bob) Op.EmergencyWithdraw
             alice_committed_paused); by_evaluation.
  - apply (owner_only_calls sample_keccak (call_at 12 bob) (Op.WithdrawHouse 1)
             alice_committed); by_evaluation.
Defined.

Lemma pause_unpause_round_trip_witness :
  run sample_keccak [(call_at 11 house, Op.Pause); (call_at 12 house, Op.Unpause)]
    alice_committed = alice_committed /\
  pause (call_at 12 house) alice_committed_paused = Revert EnforcedPause.
Proof.
  destruct (pause_unpause_round_trip sample_keccak (call_at 11 house) (call_at 12 house)
              alice_committed ltac:(by_evaluation) ltac:(by_evaluation)) as [Hrun _].
  destruct (pause_unpause_round_trip sample_keccak (call_at 12 house) (call_at 12 house)
              alice_committed_paused ltac:(by_evaluation) ltac:(by_evaluation))
    as [_ Hpaused].
  split; [apply Hrun | apply Hpaused]; by_evaluation.
Defined.

(** One finney in the house does not cover a quick bet of one finney. *)
Lemma quickBet_refund_is_neutral_witness :
  quickBet sample_keccak (call_at 5 alice) finney (deploy house finney)
    = Ok (deploy house finney, [BetRefunded alice finney "Insufficient house balance"]).
Proof.
  apply (quickBet_refund_is_neutral sample_keccak (call_at 5 alice) finney
           (deploy house finney)); by_evaluation.
Defined.

Lemma covered_bets_are_paid_witness :
  revealBet sample_keccak (call_at 12 alice) 7 alice_committed
    <> Revert (RequireFailed "Payout failed") /\
  refundExpiredBet (call_at 310 alice) alice_committed
    <> Revert (RequireFailed "Refund failed").
Proof.
  split.
  - apply (covered_bets_are_paid sample_keccak (call_at 12 alice) alice_committed);
      by_evaluation.
  - apply (covered_bets_are_paid sample_keccak (call_at 310 alice) alice_committed);
      by_evaluation.
Defined.

(** The limits of Scenario A, and three refused pairs. *)
Lemma updateBetLimits_by_owner_witness :
  updateBetLimits (call_at 2 house) 500 5000 funded
    = Ok (set_betLimits 500 5000 funded, [ConfigUpdated 500 5000]) /\
  updateBetLimits (call_at 2 house) 0 5000 funded
    = Revert (RequireFailed "Min bet must be positive") /\
  updateBetLimits (call_at 2 house) 5000 5000 funded
    = Revert (RequireFailed "Invalid bet range") /\
  updateBetLimits (call_at 2 house) 500 10000000000000001 funded
    = Revert (RequireFailed "Max bet too high").
Proof.
  pose proof (fun lo hi => updateBetLimits_by_owner (call_at 2 house)
                             lo hi funded ltac:(by_evaluation)) as U.
  split; [|split; [|split]].
  - apply (U 500 5000). by_evaluation.
  - apply (U 0 5000). reflexivity.
  - apply (U 5000 5000); by_evaluation.
  - apply (U 500 10000000000000001); by_evaluation.
Defined.

Lemma receive_is_fundHouse_witness :
  receive (call_at 3 bob) finney funded = fundHouse (call_at 3 bob) finney funded /\
  fundHouse (call_at 3 bob) 0 funded = Revert (RequireFailed "Must send CELO").
Proof.
  destruct (receive_is_fundHouse (call_at 3 bob) finney funded)
    as [Hpos _].
  destruct (receive_is_fundHouse (call_at 3 bob) 0 funded)
    as [_ Hzero].
  split; [apply Hpos; by_evaluation|].
  destruct (Hzero eq_refl) as (s' & _ & _ & Hfund). exact Hfund.
Defined.
